(** * n-queens: the board state and the genetic search, embedded in Rocq

    The development follows the two modules of the program:
    - [state.py]: the class [State] (constructor, indexing, [mate],
      [generator]);
    - [genetic_search.py]: [fitness], [goal], [print_board] and the search
      loop.

    Python values are modelled as follows.
    - [int] is [Z]; [str] is a list of characters ([pystr]); a string of
      length one stands for a character, as in Python. Printed text is a
      list of code points ([text]).
    - [float] is [pyfloat]: a rational, an infinity or NaN, with the IEEE
      comparisons (every finite double is a rational, and the program only
      compares floats).
    - An exception is a value of [exn]; a computation that may raise returns
      a [result].
    - The module [random] and object identity are effects: a computation that
      uses them runs in the monad [M] over a [world] (the random generator's
      future words and the next fresh object identity). *)

From Stdlib Require Import Ascii String.
From Stdlib Require DecimalString.
From Stdlib Require Import List ZArith QArith Bool Lia Arith.
From Stdlib Require Import Permutation Sorted.
Import ListNotations.

Local Open Scope Z_scope.

(** ** Exceptions and results *)

(** The program's assertions, by the message each carries. *)
Inductive assertion : Type :=
| invalid_number_of_digits (found : nat)
    (* "invalid number of digits, expected 8 but found {len(digits)}" *)
| invalid_digit_value (position : nat)
    (* "invalid digit value '{digit}' found at position {i + 1}" *)
| invalid_file
    (* "invalid file '{key}' specified" *)
| bad_mutation_probability
    (* "mutation probability should fall in range [0.0, 1.0)" *)
| invalid_number_of_states.
    (* "invalid number of states: {num_states}" *)

Inductive exn : Type :=
| AssertionError (a : assertion)
| IndexError
| ValueError
| TypeError.

Inductive result (A : Type) : Type :=
| Ok (a : A)
| Raise (e : exn).

Arguments Ok {A} a.
Arguments Raise {A} e.

Definition rbind {A B} (r : result A) (f : A -> result B) : result B :=
  match r with
  | Ok a => f a
  | Raise e => Raise e
  end.

(** [assert cond, msg] *)
Definition assert_ (cond : bool) (msg : assertion) : result unit :=
  if cond then Ok tt else Raise (AssertionError msg).

Definition is_ok {A} (r : result A) : bool :=
  match r with Ok _ => true | Raise _ => false end.

(** ** Strings *)

Definition pystr : Type := list ascii.

(** A string literal. *)
Definition str (s : string) : pystr := list_ascii_of_string s.

Definition len {A} (s : list A) : Z := Z.of_nat (length s).

(** [s[i]] for an integer [i]: a negative index counts from the end, and an
    index outside [-len(s), len(s)) raises [IndexError]. *)
Definition seq_getitem {A} (s : list A) (i : Z) : result A :=
  let j := if i <? 0 then i + len s else i in
  if (j <? 0) || (len s <=? j) then Raise IndexError
  else match nth_error s (Z.to_nat j) with
       | Some c => Ok c
       | None => Raise IndexError
       end.

Definition str_getitem (s : pystr) (i : Z) : result pystr :=
  rbind (seq_getitem s i) (fun c => Ok [c]).

(** A slice bound as Python clamps it (step 1): [None] is the default, a
    negative bound counts from the end, and the result is cut to [0, len]. *)
Definition clamp (n : Z) (bound : option Z) (default : Z) : Z :=
  match bound with
  | None => default
  | Some b => if b <? 0 then Z.max (b + n) 0 else Z.min b n
  end.

(** [s[start:stop]] *)
Definition slice {A} (s : list A) (start stop : option Z) : list A :=
  let lo := clamp (len s) start 0 in
  let hi := clamp (len s) stop (len s) in
  firstn (Z.to_nat (hi - lo)) (skipn (Z.to_nat lo) s).

Definition ascii_eqb (a b : ascii) : bool := Ascii.eqb a b.

Fixpoint str_eqb (a b : pystr) : bool :=
  match a, b with
  | [], [] => true
  | x :: a', y :: b' => ascii_eqb x y && str_eqb a' b'
  | _, _ => false
  end.

(** [s.startswith(p)] *)
Fixpoint startswith (s p : pystr) : bool :=
  match p, s with
  | [], _ => true
  | x :: p', y :: s' => ascii_eqb x y && startswith s' p'
  | _ :: _, [] => false
  end.

(** [s.find(sub)] counted from [off]: the lowest position where [sub] occurs
    in [s] as a substring. *)
Fixpoint str_find (s sub : pystr) (off : nat) : option nat :=
  if startswith s sub then Some off
  else match s with
       | [] => None
       | _ :: s' => str_find s' sub (S off)
       end.

(** [sub in s], for two strings: the substring test. *)
Definition str_contains (s sub : pystr) : bool :=
  match str_find s sub 0 with Some _ => true | None => false end.

(** [s.index(sub)] *)
Definition str_index (s sub : pystr) : result Z :=
  match str_find s sub 0 with
  | Some i => Ok (Z.of_nat i)
  | None => Raise ValueError
  end.

(** The value of a decimal digit character, '0' to '9'. *)
Definition digit_value (c : ascii) : option Z :=
  let n := Z.of_nat (nat_of_ascii c) in
  if (48 <=? n) && (n <=? 57) then Some (n - 48) else None.

Fixpoint parse_digits (acc : Z) (s : pystr) : option Z :=
  match s with
  | [] => Some acc
  | c :: s' =>
      match digit_value c with
      | Some d => parse_digits (10 * acc + d) s'
      | None => None
      end
  end.

(** [int(s)] for a string. The program only passes strings of one character,
    for which [int] accepts exactly the digits '0' to '9' (characters are
    8-bit here) and raises [ValueError] otherwise. Longer strings are read as
    plain digit sequences; signs, blanks and underscores are not modelled. *)
Definition py_int (s : pystr) : result Z :=
  match s with
  | [] => Raise ValueError
  | _ => match parse_digits 0 s with
         | Some v => Ok v
         | None => Raise ValueError
         end
  end.

(** [int(digit or 0)]: the empty string is falsy, so [int(0)] is taken. *)
Definition py_int_or_0 (digit : pystr) : result Z :=
  match digit with
  | [] => Ok 0
  | _ => py_int digit
  end.

(** ** Floats *)

Inductive pyfloat : Type :=
| Finite (q : Q)
| PosInf
| NegInf
| NaN.

(** [a <= b] *)
Definition float_le (a b : pyfloat) : bool :=
  match a, b with
  | NaN, _ | _, NaN => false
  | Finite x, Finite y => Qle_bool x y
  | NegInf, _ => true
  | _, PosInf => true
  | _, _ => false
  end.

(** [a < b] *)
Definition float_lt (a b : pyfloat) : bool :=
  match a, b with
  | NaN, _ | _, NaN => false
  | Finite x, Finite y => negb (Qle_bool y x)
  | PosInf, _ => false
  | _, NegInf => false
  | _, _ => true
  end.

(** ** The world: the random generator and object identity *)

(** [entropy] is the sequence of words the generator will produce and
    [cursor] the position of the next one; [next_id] is the identity the
    next object gets. *)
Record world : Type := mkWorld {
  entropy : nat -> N;
  cursor : nat;
  next_id : N
}.

Definition M (A : Type) : Type := world -> result A * world.

Definition ret {A} (a : A) : M A := fun w => (Ok a, w).

Definition lift {A} (r : result A) : M A := fun w => (r, w).

Definition bind {A B} (m : M A) (f : A -> M B) : M B :=
  fun w =>
    match m w with
    | (Ok a, w') => f a w'
    | (Raise e, w') => (Raise e, w')
    end.

Declare Scope monad_scope.
Delimit Scope monad_scope with monad.
Notation "x <- m ;; k" := (bind m (fun x => k))
  (at level 61, m at next level, right associativity) : monad_scope.
Notation "m ;;; k" := (bind m (fun _ => k))
  (at level 61, right associativity) : monad_scope.
Local Open Scope monad_scope.

(** The generator's next word. *)
Definition next_word : M N :=
  fun w => (Ok (entropy w (cursor w)),
            mkWorld (entropy w) (S (cursor w)) (next_id w)).

(** [random.randint(a, b)]: an integer of the inclusive range [a, b]. *)
Definition randint (a b : Z) : M Z :=
  if b <? a then lift (Raise ValueError)
  else r <- next_word ;; ret (a + (Z.of_N r) mod (b - a + 1)).

(** [random.random()]: a float k / 2^53 of [0.0, 1.0). *)
Definition random : M pyfloat :=
  r <- next_word ;;
  ret (Finite (Qmake (Z.of_N r mod 2 ^ 53) (2 ^ 53))).

(** [random.choice(seq)] *)
Definition choice {A} (s : list A) : M A :=
  match s with
  | [] => lift (Raise IndexError)
  | _ => r <- next_word ;;
         lift (seq_getitem s (Z.of_N r mod len s))
  end.

(** The list without its element at position [j]. *)
Definition remove_at {A} (j : nat) (l : list A) : list A :=
  firstn j l ++ skipn (S j) l.

(** [k] elements of [pool] taken at positions that are not taken twice. *)
Fixpoint draw_sample {A} (pool : list A) (k : nat) : M (list A) :=
  match k with
  | O => ret []
  | S k' =>
      r <- next_word ;;
      let j := N.to_nat r mod length pool in
      match nth_error pool j with
      | None => ret []
      | Some x => rest <- draw_sample (remove_at j pool) k' ;; ret (x :: rest)
      end
  end%nat.

(** [random.sample(population, k)]: [k] elements at unique positions of the
    population, sampling without replacement, in selection order;
    [ValueError] when the sample is larger than the population or negative. *)
Definition sample {A} (population : list A) (k : Z) : M (list A) :=
  if (k <? 0) || (len population <? k) then lift (Raise ValueError)
  else draw_sample population (Z.to_nat k).

(** [itertools.product(pool, repeat=n)], in the order it yields. *)
Fixpoint product {A} (pool : list A) (repeat : nat) : list (list A) :=
  match repeat with
  | O => [[]]
  | S n => flat_map (fun x => map (cons x) (product pool n)) pool
  end.

(** Iterating over a string yields its characters as strings of length one. *)
Definition chars (s : pystr) : list pystr := map (fun c => [c]) s.

(** [''.join(parts)] *)
Definition join (parts : list pystr) : pystr := concat parts.

(** [l[i] = x] for [0 <= i < len(l)]. *)
Fixpoint list_set {A} (l : list A) (i : nat) (x : A) : list A :=
  match l, i with
  | [], _ => []
  | _ :: l', O => x :: l'
  | y :: l', S i' => y :: list_set l' i' x
  end.

(** A [for] loop over [xs] that updates [a], in [result] and in [M]. *)
Fixpoint rfold {A X} (f : A -> X -> result A) (xs : list X) (a : A) : result A :=
  match xs with
  | [] => Ok a
  | x :: xs' => rbind (f a x) (rfold f xs')
  end.

Fixpoint foldM {A X} (f : A -> X -> M A) (xs : list X) (a : A) : M A :=
  match xs with
  | [] => ret a
  | x :: xs' => a' <- f a x ;; foldM f xs' a'
  end.

(** A loop that produces one value per element, in order. *)
Fixpoint mapM {X Y} (f : X -> M Y) (xs : list X) : M (list Y) :=
  match xs with
  | [] => ret []
  | x :: xs' => y <- f x ;; ys <- mapM f xs' ;; ret (y :: ys)
  end.

(** [range(lo, hi)] *)
Definition range (lo hi : Z) : list Z :=
  map (fun k => lo + Z.of_nat k) (seq 0 (Z.to_nat (hi - lo))).

(** ** state.py *)

(** A [State] object: its identity and its attribute [_digits]. The class
    defines neither [__eq__] nor [__hash__], so [==] and hashing are the ones
    every Python object inherits: by identity. *)
Record State : Type := mkState {
  obj_id : N;
  _digits : pystr
}.

(** [a == b] on two [State] objects (as [a is b]). *)
Definition State_eqb (a b : State) : bool := N.eqb (obj_id a) (obj_id b).

(** What indexes a [State]: an integer, a slice [start:stop], a string, or a
    value of another type. *)
Inductive key : Type :=
| KInt (i : Z)
| KSlice (start stop : option Z)
| KStr (s : pystr)
| KOther.

(** The class attributes [_state_gen] (an iterator, here what it has not
    yielded yet) and [_possible_states]. *)
Record State_class : Type := mkClass {
  _state_gen : list (list pystr);
  _possible_states : option (list (list pystr))
}.

Module State.

Definition _VALID_DIGITS : pystr := str "12345678".
Definition _N : Z := len _VALID_DIGITS.
Definition _FILES : pystr := str "abcdefgh".

(** The class as the module's import leaves it. *)
Definition class0 : State_class :=
  mkClass (product (chars _VALID_DIGITS) (Z.to_nat _N)) None.

(** The loop of [__init__] over [enumerate(digits)], from position [i]. *)
Fixpoint check_digits (i : nat) (digits : list pystr) : result unit :=
  match digits with
  | [] => Ok tt
  | digit :: rest =>
      rbind (py_int_or_0 digit) (fun v =>
      rbind (assert_ ((1 <=? v) && (v <=? _N)) (invalid_digit_value (i + 1)))
        (fun _ => check_digits (S i) rest))
  end.

(** The object under construction gets a fresh identity. *)
Definition new (digits : pystr) : M State :=
  fun w => (Ok (mkState (next_id w) digits),
            mkWorld (entropy w) (cursor w) (N.succ (next_id w))).

(** [State(digits)] *)
Definition __init__ (digits : pystr) : M State :=
  lift (assert_ (len digits =? _N) (invalid_number_of_digits (length digits))) ;;;
  lift (check_digits 0 (chars digits)) ;;;
  new digits.

(** [self[key]] *)
Definition __getitem__ (self : State) (k : key) : result pystr :=
  match k with
  | KInt i => str_getitem (_digits self) i
  | KSlice start stop => Ok (slice (_digits self) start stop)
  | KStr s =>
      rbind (assert_ (str_contains _FILES s) invalid_file) (fun _ =>
      rbind (str_index _FILES s) (fun i => str_getitem (_digits self) i))
  | KOther => Raise TypeError
  end.

(** [str(self)] *)
Definition __str__ (self : State) : pystr := _digits self.

(** One round of the mutation loop of [mate], at position [i]. *)
Definition mutate_at (mutation_probability : pyfloat)
    (digits : list pystr) (i : Z) : M (list pystr) :=
  u <- random ;;
  if float_lt u mutation_probability
  then d <- choice (chars _VALID_DIGITS) ;; ret (list_set digits (Z.to_nat i) d)
  else ret digits.

(** [self.mate(other, mutation_probability)] *)
Definition mate (self other : State) (mutation_probability : pyfloat)
  : M State :=
  lift (assert_ (float_le (Finite 0) mutation_probability
                 && float_lt mutation_probability (Finite 1))
          bad_mutation_probability) ;;;
  (* randomly choose crossover point *)
  c <- randint 0 (_N - 1) ;;
  (* combine self with other, cutting at crossover point *)
  head <- lift (__getitem__ self (KSlice None (Some c))) ;;
  tail <- lift (__getitem__ other (KSlice (Some c) None)) ;;
  let digits := head ++ tail in
  (* for each digit, mutate with some small probability *)
  digits <- (if float_lt (Finite 0) mutation_probability
             then l <- foldM (mutate_at mutation_probability)
                         (range 0 (len (chars digits))) (chars digits) ;;
                  ret (join l)
             else ret digits) ;;
  (* create successor state from resulting digits *)
  __init__ digits.

(** The lazy load of [_possible_states]: the first load drains the iterator
    [_state_gen] into a tuple. *)
Definition load (cls : State_class) : State_class :=
  match _possible_states cls with
  | None => mkClass [] (Some (_state_gen cls))
  | Some _ => cls
  end.

Definition possible_states (cls : State_class) : list (list pystr) :=
  match _possible_states cls with
  | Some l => l
  | None => []
  end.

(** [State.generator(num_states)], run to its end: the states it yields, in
    order (as [tuple(State.generator(num_states))] collects them), and the
    class as the run leaves it. The body of a generator runs when it is
    iterated, so the assertion fails at the first [next]. *)
Definition generator (cls : State_class) (num_states : Z)
  : State_class * M (list State) :=
  if negb (0 <? num_states)
  then (cls, lift (Raise (AssertionError invalid_number_of_states)))
  else
    let cls' := load cls in
    (cls',
     picked <- sample (possible_states cls') num_states ;;
     mapM (fun s => __init__ (join s)) picked).

End State.

(** ** genetic_search.py *)

Definition BOARD_SIZE : Z := 8.
Definition SOLUTION : Z := 28.

(** The test of the inner loop of [fitness]:
    [s[i] != s[j] and abs(i-j) != abs(int(s[i]) - int(s[j]))].
    The right operand of [and] is evaluated only when the left one holds. *)
Definition non_attacking (s : State) (i j : Z) : result bool :=
  rbind (State.__getitem__ s (KInt i)) (fun si =>
  rbind (State.__getitem__ s (KInt j)) (fun sj =>
  if negb (str_eqb si sj) then
    rbind (State.__getitem__ s (KInt i)) (fun si' =>
    rbind (py_int si') (fun ri =>
    rbind (State.__getitem__ s (KInt j)) (fun sj' =>
    rbind (py_int sj') (fun rj =>
    Ok (negb (Z.abs (i - j) =? Z.abs (ri - rj)))))))
  else Ok false)).

(** The body of the inner loop: [if ...: score += 1]. *)
Definition fitness_inner (s : State) (i : Z) (score : Z) (j : Z) : result Z :=
  rbind (non_attacking s i j) (fun b => Ok (if b then score + 1 else score)).

(** The body of the outer loop: [for j in range(i+1, 8): ...]. *)
Definition fitness_outer (s : State) (score : Z) (i : Z) : result Z :=
  rfold (fitness_inner s i) (range (i + 1) 8) score.

(** [fitness(s)] *)
Definition fitness (s : State) : result Z :=
  rfold (fitness_outer s) (range 0 BOARD_SIZE) 0.

(** [goal(s)] *)
Definition goal (s : State) : result bool :=
  rbind (fitness s) (fun f => Ok (f =? SOLUTION)).

Definition K : Z := 1000.

(** [0.05], the double: 3602879701896397 / 2^56. *)
Definition MUTATION_PROBABILITY : pyfloat :=
  Finite (Qmake 3602879701896397 (2 ^ 56)).

(** A [dict] from [State] to [int]: the items in insertion order; the keys
    are compared with [==] of [State]. *)
Definition dict : Type := list (State * Z).

(** [d[k] = v]: a key already there keeps its place and gets the new value,
    a new key goes last. *)
Fixpoint dict_set (d : dict) (k : State) (v : Z) : dict :=
  match d with
  | [] => [(k, v)]
  | (k', v') :: d' =>
      if State_eqb k' k then (k', v) :: d' else (k', v') :: dict_set d' k v
  end.

(** [d.get(k)] *)
Fixpoint dict_get (d : dict) (k : State) : option Z :=
  match d with
  | [] => None
  | (k', v') :: d' => if State_eqb k' k then Some v' else dict_get d' k
  end.

(** [list(d)]: the keys. *)
Definition dict_keys (d : dict) : list State := map fst d.

(** Stable insertion for a descending order: [x], which stood before every
    element of [l], goes before the first element whose key is not greater. *)
Fixpoint insert_desc {A} (key : A -> Z) (x : A) (l : list A) : list A :=
  match l with
  | [] => [x]
  | y :: l' => if key x <? key y then y :: insert_desc key x l' else x :: l
  end.

Definition sort_desc {A} (key : A -> Z) (l : list A) : list A :=
  fold_right (insert_desc key) [] l.

(** [sorted(d, key=d.get, reverse=True)]: the keys of [d] by descending
    value, keys of equal value in the order of [d] (the sort is stable).
    Each key is ranked by its own value, so the items are sorted by value. *)
Definition sorted_by_value_desc (d : dict) : list State :=
  map fst (sort_desc snd d).

(** The variables of the module that the search loop updates. *)
Record vars : Type := mkVars {
  hashmap : dict;
  searching : bool;
  iterations : Z;
  counter : Z;
  golden_child : option State
}.

(** The body of [for i in range(K - 1)]. *)
Definition breed (maiting_pairs : list State) (v : vars) (i : Z) : M vars :=
  let iterations' := iterations v + 1 in
  a <- lift (seq_getitem maiting_pairs i) ;;
  b <- lift (seq_getitem maiting_pairs (i + 1)) ;;
  child <- State.mate a b MUTATION_PROBABILITY ;;
  f <- lift (fitness child) ;;
  let hashmap' := dict_set (hashmap v) child f in
  g <- lift (goal child) ;;
  if g
  then ret (mkVars hashmap' false iterations' (counter v) (Some child))
  else ret (mkVars hashmap' (searching v) iterations' (counter v)
              (golden_child v)).

(** The body of [while searching]: one generation. *)
Definition generation (v : vars) : M vars :=
  let counter' := counter v + 1 in
  let sorted_population := sorted_by_value_desc (hashmap v) in
  let maiting_pairs := slice sorted_population None (Some K) in
  foldM (breed maiting_pairs)
    (range 0 (K - 1))
    (mkVars (hashmap v) (searching v) (iterations v) counter' (golden_child v)).

(** [while searching: ...], for at most [fuel] generations: [None] when the
    loop is still running after them. *)
Fixpoint search (fuel : nat) (v : vars) : M (option vars) :=
  if searching v then
    match fuel with
    | O => ret None
    | S fuel' => v' <- generation v ;; search fuel' v'
    end
  else ret (Some v).

(** [for state in population: hashmap[state] = fitness(state)] *)
Definition fill (h : dict) (state : State) : result dict :=
  rbind (fitness state) (fun f => Ok (dict_set h state f)).

(** The variables when the loop is entered. *)
Definition enter (population : list State) : result vars :=
  rbind (rfold fill population []) (fun h => Ok (mkVars h true 0 0 None)).

(** The program: the golden child and [iterations] as it prints them. *)
Definition main (fuel : nat) : M (option (State * Z)) :=
  population <- snd (State.generator State.class0 K) ;;
  v <- lift (enter population) ;;
  r <- search fuel v ;;
  match r with
  | Some v' =>
      match golden_child v' with
      | Some g => ret (Some (g, iterations v'))
      | None => ret None
      end
  | None => ret None
  end.


(** ** The State invariant *)

(** The character encodes a row of the board: a digit from 1 to 8. *)
Definition is_row (c : ascii) : Prop :=
  exists v, digit_value c = Some v /\ 1 <= v <= 8.

(** The character is a decimal digit, encoding an integer from 0 to 9. *)
Definition is_decimal (c : ascii) : Prop :=
  exists v, digit_value c = Some v.

(** A digit string of a valid State: exactly 8 positions, each a row. *)
Definition valid_digits (digits : pystr) : Prop :=
  length digits = 8%nat /\ Forall is_row digits.

Definition invariant (s : State) : Prop := valid_digits (_digits s).

Definition is_rowb (c : ascii) : bool :=
  match digit_value c with
  | Some v => (1 <=? v) && (v <=? 8)
  | None => false
  end.

Definition valid_digitsb (digits : pystr) : bool :=
  Nat.eqb (length digits) 8 && forallb is_rowb digits.

(** ** Queens that attack each other *)

(** The row of the queen in column [i]: the integer its digit encodes. *)
Definition row (s : State) (i : Z) : Z :=
  match nth_error (_digits s) (Z.to_nat i) with
  | Some c => match digit_value c with Some v => v | None => 0 end
  | None => 0
  end.


Definition attackb (s : State) (i j : Z) : bool :=
  (row s i =? row s j) || (Z.abs (i - j) =? Z.abs (row s i - row s j)).

(** The column pairs (i, j) with i < j. *)
Definition column_pairs : list (Z * Z) :=
  filter (fun p => fst p <? snd p) (list_prod (range 0 8) (range 0 8)).

(** The pairs of columns that do not attack each other. *)
Definition non_attacking_pairs (s : State) : list (Z * Z) :=
  filter (fun p => negb (attackb s (fst p) (snd p))) column_pairs.

(** A list with no repeated element, checked by a boolean equality. *)
Fixpoint nodupb {A} (eqb : A -> A -> bool) (l : list A) : bool :=
  match l with
  | [] => true
  | x :: l' => negb (existsb (eqb x) l') && nodupb eqb l'
  end.

(** ** Probabilities *)

(** The float lies in the half-open interval [0.0, 1.0). *)
Definition in_unit_interval (p : pyfloat) : Prop :=
  exists q, p = Finite q /\ (0 <= q)%Q /\ (q < 1)%Q.

(** The world after [n] more words of the generator were used. *)
Definition advance (n : nat) (w : world) : world :=
  mkWorld (entropy w) (n + cursor w) (next_id w).

(** ** The class of States *)

(** The class as the program can find it: as imported, or after the first
    load of [_possible_states]. *)
Definition class_ok (cls : State_class) : Prop :=
  cls = State.class0 \/ cls = State.load State.class0.

(** ** The population *)

(** The number of column pairs of [s] that are free of attack. *)
Definition score (s : State) : Z := Z.of_nat (length (non_attacking_pairs s)).

(** All 28 pairs are free of attack. *)
Definition solves (s : State) : bool := score s =? SOLUTION.

(** The last of [children] that solves the puzzle, or else [before]. *)
Definition last_solution (children : list State) (before : option State)
  : option State :=
  fold_left (fun g c => if solves c then Some c else g) children before.

(** What the search loop keeps of the population: every State in the
    mapping is valid and older than the next object, and the mapping holds
    at least [K] States. *)
Definition pop_ok (v : vars) (w : world) : Prop :=
  Forall invariant (dict_keys (hashmap v)) /\
  Forall (fun s => (obj_id s < next_id w)%N) (dict_keys (hashmap v)) /\
  K <= len (hashmap v).

Definition pop_okb (v : vars) (w : world) : bool :=
  forallb (fun s => valid_digitsb (_digits s)) (dict_keys (hashmap v))
  && forallb (fun s => (obj_id s <? next_id w)%N) (dict_keys (hashmap v))
  && (K <=? len (hashmap v)).

(** A population of 1000 States with distinct digits, three of them
    solutions, and a world whose generator always draws the crossover point
    0 and never mutates. *)
Definition population0 : list State :=
  map (fun p => mkState (N.of_nat (fst p)) (snd p))
    (combine (seq 0 1000)
       ([str "41582736"; str "15863724"; str "16837425"]
        ++ map (fun t => str "1111" ++ join t)
             (firstn 997 (product (chars State._VALID_DIGITS) 4)))).

Definition world0 : world := mkWorld (fun _ => (2 ^ 52)%N) 0 1000.

Definition vars0 : vars :=
  match enter population0 with
  | Ok v => v
  | Raise _ => mkVars [] true 0 0 None
  end.

(** A property of the result of a computation that did not raise. *)
Definition on_ok {A} (r : result A) (P : A -> Prop) : Prop :=
  match r with
  | Ok a => P a
  | Raise _ => False
  end.

(** ** The cached fitness *)

(** Every State of the mapping is stored with its fitness. *)
Definition cache_ok (h : dict) : Prop :=
  Forall (fun e => fitness (fst e) = Ok (snd e)) h.

(** ** Boards *)




(** ** genetic_search.py: printing the board *)













(** ** Worlds that force a child *)

(** The words of a generator under which [mate] mutates every position into
    the digit of [target] there: the crossover point 0, then for each
    position the float 0.0 and the place of the digit in [_VALID_DIGITS]. *)
Definition forcing (target : pystr) (n : nat) : N :=
  match n with
  | O => 0%N
  | S m => if Nat.even m then 0%N
           else N.of_nat (nat_of_ascii (nth (m / 2) target "1"%char) - 49)
  end.

(** * Properties *)

(** ** The constructor *)

Lemma is_rowb_spec c : is_rowb c = true <-> is_row c.
Proof.
  unfold is_rowb, is_row. destruct (digit_value c) as [v|].
  - split.
    + intros H. exists v. split; [reflexivity | lia].
    + intros (v' & E & Hv). injection E as <-. lia.
  - split; [discriminate | intros (v & E & _); discriminate].
Qed.

Lemma forallb_is_rowb digits :
  forallb is_rowb digits = true <-> Forall is_row digits.
Proof.
  rewrite forallb_forall, Forall_forall.
  split; intros H c Hc; apply is_rowb_spec; auto.
Qed.

Lemma valid_digitsb_spec digits :
  valid_digitsb digits = true <-> valid_digits digits.
Proof.
  unfold valid_digitsb, valid_digits.
  rewrite andb_true_iff, Nat.eqb_eq, forallb_forall, Forall_forall.
  split; intros [H1 H2]; split; auto; intros c Hc; apply is_rowb_spec; auto.
Qed.

Lemma py_int_char c : py_int [c] = match digit_value c with Some v => Ok v | None => Raise ValueError end.
Proof.
  unfold py_int, parse_digits. destruct (digit_value c); [|reflexivity].
  f_equal.
Qed.

Lemma check_digits_ok i digits :
  Forall is_row digits -> State.check_digits i (chars digits) = Ok tt.
Proof.
  intros H. revert i. induction H as [|c l (v & E & Hv) _ IH]; intros i.
  - reflexivity.
  - cbn [chars map State.check_digits]. unfold py_int_or_0.
    rewrite py_int_char, E. cbn [rbind].
    change State._N with 8.
    replace ((1 <=? v) && (v <=? 8)) with true by lia.
    cbn [assert_ rbind]. apply IH.
Qed.

Lemma check_digits_inv i digits :
  State.check_digits i (chars digits) = Ok tt -> Forall is_row digits.
Proof.
  revert i. induction digits as [|c l IH]; intros i H.
  - constructor.
  - cbn [chars map State.check_digits] in H. unfold py_int_or_0 in H.
    rewrite py_int_char in H.
    destruct (digit_value c) as [v|] eqn:E; cbn [rbind] in H; [|discriminate].
    change State._N with 8 in H.
    destruct ((1 <=? v) && (v <=? 8)) eqn:B; cbn [assert_ rbind] in H; [|discriminate].
    constructor.
    + exists v. split; [exact E | lia].
    + apply (IH (S i)). exact H.
Qed.

Lemma check_digits_range i digits :
  Forall is_decimal digits -> ~ Forall is_row digits ->
  exists p, State.check_digits i (chars digits) = Raise (AssertionError (invalid_digit_value p)).
Proof.
  intros H. revert i. induction H as [|c l (v & E) _ IH]; intros i N.
  - exfalso. apply N. constructor.
  - cbn [chars map State.check_digits]. unfold py_int_or_0.
    rewrite py_int_char, E. cbn [rbind]. change State._N with 8.
    destruct ((1 <=? v) && (v <=? 8)) eqn:B; cbn [assert_ rbind].
    + apply IH. intros F. apply N. constructor; [|exact F].
      exists v. split; [exact E | lia].
    + eexists. reflexivity.
Qed.

Lemma init_eq digits w :
  State.__init__ digits w =
    if len digits =? 8 then
      match State.check_digits 0 (chars digits) with
      | Ok _ => State.new digits w
      | Raise e => (Raise e, w)
      end
    else (Raise (AssertionError (invalid_number_of_digits (length digits))), w).
Proof.
  unfold State.__init__, bind, lift. change State._N with 8.
  destruct (len digits =? 8); cbn [assert_]; [|reflexivity].
  destruct (State.check_digits 0 (chars digits)) as [[]|e]; reflexivity.
Qed.

Lemma init_valid digits w :
  valid_digits digits ->
  State.__init__ digits w =
    (Ok (mkState (next_id w) digits),
     mkWorld (entropy w) (cursor w) (N.succ (next_id w))).
Proof.
  intros [L F]. rewrite init_eq. unfold len. rewrite L. cbn [Z.of_nat Z.eqb Pos.of_succ_nat Pos.succ Pos.eqb].
  rewrite (check_digits_ok 0 digits F). reflexivity.
Qed.

(** C9. [State(digits)] succeeds exactly on the strings that encode 8
    integers each in [1, 8], and then stores the string unchanged. A string
    whose length is not 8 fails the first assertion; a string of 8 decimal
    digits one of which is outside [1, 8] fails the assertion on the digit
    values. Both failures leave the world as it was. *)
Theorem init_accepts_exactly_valid_digits (digits : pystr) (w : world) :
  (valid_digits digits <->
   exists s w', State.__init__ digits w = (Ok s, w')) /\
  (forall s w', State.__init__ digits w = (Ok s, w') -> _digits s = digits) /\
  (length digits <> 8%nat ->
   State.__init__ digits w =
     (Raise (AssertionError (invalid_number_of_digits (length digits))), w)) /\
  (length digits = 8%nat -> Forall is_decimal digits ->
   ~ Forall is_row digits ->
   exists p, State.__init__ digits w =
     (Raise (AssertionError (invalid_digit_value p)), w)).
Proof.
  repeat split.
  - intros V. rewrite (init_valid _ _ V). eauto.
  - rewrite init_eq in H. destruct H as (s & w' & H).
    destruct (len digits =? 8) eqn:E; [|discriminate].
    unfold len in E. lia.
  - rewrite init_eq in H. destruct H as (s & w' & H).
    destruct (len digits =? 8) eqn:E; [|discriminate].
    destruct (State.check_digits 0 (chars digits)) as [[]|e] eqn:C; [|discriminate].
    eapply check_digits_inv; eauto.
  - intros s w'. rewrite init_eq.
    destruct (len digits =? 8); [|discriminate].
    destruct (State.check_digits 0 (chars digits)) as [[]|e]; [|discriminate].
    unfold State.new. intros H. injection H as <- _. reflexivity.
  - intros L. rewrite init_eq.
    destruct (len digits =? 8) eqn:E; [|reflexivity]. unfold len in E. lia.
  - intros L D NR. rewrite init_eq. unfold len. rewrite L.
    cbn [Z.of_nat Z.eqb Pos.of_succ_nat Pos.succ Pos.eqb].
    destruct (check_digits_range 0 digits D NR) as (p & ->). eauto.
Qed.

Lemma init_accepts_exactly_valid_digits_witness :
  State.__init__ (str "1234567") (mkWorld (fun _ => 0%N) 0 0) =
    (Raise (AssertionError (invalid_number_of_digits 7)),
     mkWorld (fun _ => 0%N) 0 0) /\
  (exists p, State.__init__ (str "12345679") (mkWorld (fun _ => 0%N) 0 0) =
    (Raise (AssertionError (invalid_digit_value p)),
     mkWorld (fun _ => 0%N) 0 0)) /\
  (exists s w', State.__init__ (str "41582736") (mkWorld (fun _ => 0%N) 0 0) =
    (Ok s, w')).
Proof.
  split; [|split].
  - apply (init_accepts_exactly_valid_digits (str "1234567")).
    vm_compute. discriminate.
  - apply (init_accepts_exactly_valid_digits (str "12345679")).
    + reflexivity.
    + repeat constructor; eexists; reflexivity.
    + intros F. apply forallb_is_rowb in F. discriminate.
  - apply (init_accepts_exactly_valid_digits (str "41582736")).
    apply valid_digitsb_spec. reflexivity.
Defined.

(** ** Indexing *)

Lemma seq_getitem_nth {A} (s : list A) (i : Z) :
  0 <= i < len s ->
  exists c, nth_error s (Z.to_nat i) = Some c /\ seq_getitem s i = Ok c.
Proof.
  intros H. unfold seq_getitem.
  replace (i <? 0) with false by lia.
  replace ((i <? 0) || (len s <=? i)) with false by lia.
  destruct (nth_error s (Z.to_nat i)) as [c|] eqn:E.
  - exists c. split; reflexivity.
  - apply nth_error_None in E. unfold len in H. lia.
Qed.

Lemma seq_getitem_negative {A} (s : list A) (i : Z) :
  - len s <= i < 0 -> seq_getitem s i = seq_getitem s (len s + i).
Proof.
  intros H. unfold seq_getitem.
  replace (i <? 0) with true by lia.
  replace (len s + i <? 0) with false by lia.
  rewrite (Z.add_comm i). reflexivity.
Qed.

(** A one-letter label of [_FILES] is looked up at its position. *)
Lemma getitem_file_letter (s : State) (n : nat) (c : ascii) :
  nth_error State._FILES n = Some c ->
  State.__getitem__ s (KStr [c]) = State.__getitem__ s (KInt (Z.of_nat n)).
Proof.
  intros H.
  do 8 (destruct n as [|n]; [injection H as <-; reflexivity|]).
  destruct n; discriminate.
Qed.

(** A one-letter label that is no file fails the assertion. *)
Lemma getitem_unknown_letter (s : State) (c : ascii) :
  ~ In c State._FILES ->
  State.__getitem__ s (KStr [c]) = Raise (AssertionError invalid_file).
Proof.
  intros H. cbn [State.__getitem__].
  assert (E : str_contains State._FILES [c] = false).
  { unfold str_contains.
    assert (G : forall l off, ~ In c l -> str_find l [c] off = None).
    { induction l as [|x l IH]; intros off N.
      - reflexivity.
      - cbn [str_find startswith]. unfold ascii_eqb.
        destruct (Ascii.eqb c x) eqn:B.
        + apply Ascii.eqb_eq in B. subst. exfalso. apply N. left. reflexivity.
        + cbn [andb]. apply IH. intros I. apply N. right. exact I. }
    rewrite (G _ _ H). reflexivity. }
  rewrite E. reflexivity.
Qed.

(** C8. A string that is a run of several file letters, or the empty string,
    is no file, and the lookup accepts it all the same: [key in _FILES] is a
    substring test, and the lookup answers with the first position of the
    run. *)
Theorem getitem_accepts_runs_of_files (s : State) :
  State.__getitem__ s (KStr (str "bc")) = State.__getitem__ s (KInt 1) /\
  State.__getitem__ s (KStr (str "")) = State.__getitem__ s (KInt 0) /\
  State.__getitem__ (mkState 0 (str "12345678")) (KStr (str "bc"))
    = Ok (str "2").
Proof.
  repeat split.
Qed.

(** C10. A negative index from -8 to -1 is accepted and counts from the end:
    [s[i]] is the digit at position [8 + i]. *)
Theorem getitem_negative_index (s : State) (i : Z) :
  invariant s -> -8 <= i <= -1 ->
  exists c, nth_error (_digits s) (Z.to_nat (8 + i)) = Some c /\
            State.__getitem__ s (KInt i) = Ok [c] /\
            State.__getitem__ s (KInt (8 + i)) = Ok [c].
Proof.
  intros [L _] H. cbn [State.__getitem__]. unfold str_getitem.
  assert (E : len (_digits s) = 8) by (unfold len; lia).
  rewrite seq_getitem_negative by lia. rewrite E.
  destruct (seq_getitem_nth (_digits s) (8 + i)) as (c & N & G); [lia|].
  exists c. rewrite G. repeat split. exact N.
Qed.

Lemma getitem_negative_index_witness :
  exists c, nth_error (str "41582736") (Z.to_nat (8 + -1)) = Some c /\
            State.__getitem__ (mkState 0 (str "41582736")) (KInt (-1)) = Ok [c] /\
            State.__getitem__ (mkState 0 (str "41582736")) (KInt (8 + -1)) = Ok [c].
Proof.
  apply (getitem_negative_index (mkState 0 (str "41582736")) (-1)).
  - apply valid_digitsb_spec. reflexivity.
  - lia.
Defined.

(** ** Fitness *)


Lemma in_range lo hi x : In x (range lo hi) <-> lo <= x < hi.
Proof.
  unfold range. rewrite in_map_iff. split.
  - intros (k & <- & I). apply in_seq in I. lia.
  - intros H. exists (Z.to_nat (x - lo)). split; [lia|].
    apply in_seq. lia.
Qed.


Lemma digit_value_inj c d v :
  digit_value c = Some v -> digit_value d = Some v -> c = d.
Proof.
  unfold digit_value. intros Hc Hd.
  destruct ((48 <=? Z.of_nat (nat_of_ascii c)) && (Z.of_nat (nat_of_ascii c) <=? 57)); [|discriminate].
  destruct ((48 <=? Z.of_nat (nat_of_ascii d)) && (Z.of_nat (nat_of_ascii d) <=? 57)); [|discriminate].
  injection Hc as Hc. injection Hd as Hd.
  rewrite <- (ascii_nat_embedding c), <- (ascii_nat_embedding d).
  f_equal. lia.
Qed.

Lemma valid_digit_at (s : State) (i : Z) :
  invariant s -> 0 <= i < 8 ->
  exists c, seq_getitem (_digits s) i = Ok c /\
            digit_value c = Some (row s i) /\ 1 <= row s i <= 8.
Proof.
  intros [L F] H.
  destruct (seq_getitem_nth (_digits s) i) as (c & N & G).
  { unfold len. lia. }
  exists c. split; [exact G|].
  rewrite Forall_forall in F.
  destruct (F c (nth_error_In _ _ N)) as (v & E & Hv).
  unfold row. rewrite N, E. split; [reflexivity | exact Hv].
Qed.

(** On a valid State the test of the inner loop says whether the two columns
    are free of attack: the digits differ exactly when the rows do. *)
Lemma non_attacking_spec (s : State) (i j : Z) :
  invariant s -> 0 <= i < 8 -> 0 <= j < 8 ->
  non_attacking s i j = Ok (negb (attackb s i j)).
Proof.
  intros V Hi Hj.
  destruct (valid_digit_at s i V Hi) as (ci & Gi & Di & _).
  destruct (valid_digit_at s j V Hj) as (cj & Gj & Dj & _).
  unfold non_attacking, State.__getitem__, str_getitem.
  rewrite Gi, Gj. cbn [rbind str_eqb]. rewrite !py_int_char, Di, Dj.
  cbn [rbind]. unfold attackb, ascii_eqb. rewrite andb_true_r.
  destruct (Ascii.eqb ci cj) eqn:B.
  - apply Ascii.eqb_eq in B. subst cj.
    assert (E : row s i = row s j) by congruence.
    rewrite E, Z.eqb_refl. reflexivity.
  - cbn [negb].
    assert (E : row s i <> row s j).
    { intros E. rewrite <- E in Dj.
      rewrite (digit_value_inj _ _ _ Di Dj), Ascii.eqb_refl in B.
      discriminate. }
    apply Z.eqb_neq in E. rewrite E. reflexivity.
Qed.

Section Counting.

Variable s : State.
Variable free : Z -> Z -> bool.

(** The inner loop adds the number of the [j] that pass the test. *)
Lemma fitness_inner_count (i : Z) (js : list Z) (score : Z) :
  (forall j, In j js -> non_attacking s i j = Ok (free i j)) ->
  rfold (fitness_inner s i) js score
  = Ok (score + Z.of_nat (length (filter (free i) js))).
Proof.
  revert score. induction js as [|j js IH]; intros score H.
  - cbn. f_equal. lia.
  - cbn [rfold filter]. unfold fitness_inner at 1.
    rewrite (H j (or_introl eq_refl)). cbn [rbind].
    rewrite IH by (intros; apply H; right; assumption).
    destruct (free i j); cbn [length]; f_equal; lia.
Qed.

Definition pairs_from (cols : list Z) : list (Z * Z) :=
  flat_map (fun i => map (pair i) (range (i + 1) 8)) cols.

Lemma fitness_outer_count (cols : list Z) (score : Z) :
  (forall i j, In i cols -> In j (range (i + 1) 8) ->
               non_attacking s i j = Ok (free i j)) ->
  rfold (fitness_outer s) cols score
  = Ok (score + Z.of_nat (length (filter (fun p => free (fst p) (snd p))
                                    (pairs_from cols)))).
Proof.
  revert score. induction cols as [|i cols IH]; intros score H.
  - cbn. f_equal. lia.
  - cbn [rfold pairs_from flat_map]. unfold fitness_outer at 1.
    rewrite fitness_inner_count by (intros; apply H; [left; reflexivity | assumption]).
    cbn [rbind]. rewrite IH by (intros; apply H; [right|]; assumption).
    rewrite filter_app, length_app. f_equal.
    assert (E : forall l, length (filter (fun p => free (fst p) (snd p)) (map (pair i) l))
                    = length (filter (free i) l)).
    { induction l as [|x l IHl]; [reflexivity|].
      cbn [map filter fst snd]. destruct (free i x); cbn [length]; rewrite IHl; reflexivity. }
    rewrite E. unfold pairs_from. lia.
Qed.

End Counting.

Lemma nodupb_sound {A} (eqb : A -> A -> bool) (l : list A) :
  (forall x, eqb x x = true) -> nodupb eqb l = true -> NoDup l.
Proof.
  intros R. induction l as [|x l IH]; intros H.
  - constructor.
  - cbn [nodupb] in H. apply andb_true_iff in H. destruct H as [H1 H2].
    constructor; [|apply IH; exact H2].
    intros I. apply negb_true_iff in H1.
    assert (E : existsb (eqb x) l = true).
    { apply existsb_exists. exists x. split; [exact I | apply R]. }
    congruence.
Qed.



(** The loops of [fitness] visit the column pairs (i, j) with i < j. *)
Lemma pairs_from_range : pairs_from (range 0 BOARD_SIZE) = column_pairs.
Proof. vm_compute. reflexivity. Qed.

Lemma fitness_valid (s : State) :
  invariant s ->
  fitness s = Ok (Z.of_nat (length (non_attacking_pairs s))).
Proof.
  intros V. unfold fitness.
  rewrite (fitness_outer_count s (fun i j => negb (attackb s i j))).
  - rewrite pairs_from_range. rewrite Z.add_0_l. reflexivity.
  - intros i j Hi Hj. apply in_range in Hi, Hj. change BOARD_SIZE with 8 in Hi.
    apply non_attacking_spec; [exact V | lia | lia].
Qed.



(** ** Mating *)

Lemma unit_interval_spec (p : pyfloat) :
  float_le (Finite 0) p && float_lt p (Finite 1) = true <-> in_unit_interval p.
Proof.
  unfold in_unit_interval. destruct p as [q| | |]; cbn [float_le float_lt].
  - rewrite andb_true_iff, negb_true_iff, Qle_bool_iff. split.
    + intros [H1 H2]. exists q. repeat split; [exact H1|].
      apply Qnot_le_lt. intros L. apply Qle_bool_iff in L.
      change (inject_Z 1) with 1%Q in H2. congruence.
    + intros (q' & E & H1 & H2). injection E as <-. split; [exact H1|].
      destruct (Qle_bool 1 q) eqn:B; [|reflexivity].
      apply Qle_bool_iff in B. exfalso. exact (Qlt_not_le _ _ H2 B).
  - split; [discriminate | intros (q & E & _); discriminate].
  - split; [discriminate | intros (q & E & _); discriminate].
  - split; [discriminate | intros (q & E & _); discriminate].
Qed.

(** The crossover point the generator's next word gives. *)
Lemma randint_crossover (w : world) :
  randint 0 (State._N - 1) w
  = (Ok (Z.of_N (entropy w (cursor w)) mod 8), advance 1 w).
Proof. reflexivity. Qed.

Lemma slice_prefix {A} (s : list A) (c : Z) :
  0 <= c <= len s -> slice s None (Some c) = firstn (Z.to_nat c) s.
Proof.
  intros H. unfold slice, clamp.
  replace (c <? 0) with false by lia.
  rewrite Z.min_l by lia. rewrite Z.sub_0_r. reflexivity.
Qed.

Lemma slice_suffix {A} (s : list A) (c : Z) :
  0 <= c <= len s -> slice s (Some c) None = skipn (Z.to_nat c) s.
Proof.
  intros H. unfold slice, clamp.
  replace (c <? 0) with false by lia.
  rewrite Z.min_l by lia. apply firstn_all2.
  rewrite length_skipn. unfold len in *. lia.
Qed.

Lemma Forall_firstn_skipn {A} (P : A -> Prop) (n : nat) (l : list A) :
  Forall P l -> Forall P (firstn n l) /\ Forall P (skipn n l).
Proof.
  intros F. apply Forall_app. rewrite firstn_skipn. exact F.
Qed.

Lemma crossover_valid (a b : pystr) (c : nat) :
  valid_digits a -> valid_digits b -> (c <= 8)%nat ->
  valid_digits (firstn c a ++ skipn c b).
Proof.
  intros [La Fa] [Lb Fb] H. split.
  - rewrite length_app, length_firstn, length_skipn. lia.
  - apply Forall_app. split.
    + apply (Forall_firstn_skipn is_row c a Fa).
    + apply (Forall_firstn_skipn is_row c b Fb).
Qed.

Lemma seq_getitem_map {A B} (f : A -> B) (s : list A) (i : Z) :
  seq_getitem (map f s) i = rbind (seq_getitem s i) (fun c => Ok (f c)).
Proof.
  unfold seq_getitem, len. rewrite length_map, nth_error_map.
  destruct (_ || _); [reflexivity|].
  destruct (nth_error s _); reflexivity.
Qed.

Lemma list_set_chars (d : pystr) (i : nat) (x : ascii) :
  list_set (chars d) i [x] = chars (list_set d i x).
Proof.
  revert i. induction d as [|y d IH]; intros [|i]; cbn; try reflexivity.
  f_equal. apply IH.
Qed.

Lemma list_set_valid (d : pystr) (i : nat) (x : ascii) :
  valid_digits d -> is_row x -> valid_digits (list_set d i x).
Proof.
  intros [L F] X. split.
  - rewrite <- L. clear. revert i. induction d as [|y d IH]; intros [|i]; cbn; auto.
  - clear L. revert i. induction F as [|y d Y F IH]; intros [|i]; cbn; auto.
Qed.

Lemma join_chars (d : pystr) : join (chars d) = d.
Proof. induction d as [|c d IH]; cbn; [|f_equal]; auto. Qed.

(** [random.choice(_VALID_DIGITS)] gives one of the digits 1 to 8. *)
Lemma choice_valid_digit (w : world) :
  exists x, choice (chars State._VALID_DIGITS) w = (Ok [x], advance 1 w)
            /\ is_row x.
Proof.
  assert (E : choice (chars State._VALID_DIGITS) w
              = (seq_getitem (chars State._VALID_DIGITS)
                   (Z.of_N (entropy w (cursor w))
                    mod len (chars State._VALID_DIGITS)),
                 advance 1 w)) by reflexivity.
  rewrite E. clear E. unfold chars at 1.
  rewrite (seq_getitem_map (fun c : ascii => [c]) State._VALID_DIGITS).
  assert (B : 0 <= Z.of_N (entropy w (cursor w)) mod len (chars State._VALID_DIGITS)
              < len State._VALID_DIGITS).
  { change (len (chars State._VALID_DIGITS)) with 8.
    change (len State._VALID_DIGITS) with 8. apply Z.mod_pos_bound. lia. }
  destruct (seq_getitem_nth State._VALID_DIGITS _ B) as (x & N & G).
  rewrite G. exists x. split; [reflexivity|].
  apply nth_error_In in N.
  assert (V : Forall is_row State._VALID_DIGITS).
  { apply forallb_is_rowb. reflexivity. }
  rewrite Forall_forall in V. auto.
Qed.

Lemma advance_advance n m w : advance n (advance m w) = advance (n + m) w.
Proof. unfold advance. cbn. f_equal. lia. Qed.

Lemma mutate_at_valid (p : pyfloat) (d : pystr) (i : Z) (w : world) :
  valid_digits d ->
  exists d' n, State.mutate_at p (chars d) i w = (Ok (chars d'), advance n w)
               /\ valid_digits d'.
Proof.
  intros V.
  assert (E : State.mutate_at p (chars d) i w =
              if float_lt (Finite (Qmake (Z.of_N (entropy w (cursor w)) mod 2 ^ 53)
                                     (2 ^ 53))) p
              then (x <- choice (chars State._VALID_DIGITS) ;;
                    ret (list_set (chars d) (Z.to_nat i) x)) (advance 1 w)
              else (Ok (chars d), advance 1 w)).
  { unfold State.mutate_at, bind at 1, random, bind at 1, next_word, ret.
    cbn [fst snd]. destruct (float_lt _ p); reflexivity. }
  rewrite E. clear E. destruct (float_lt _ p).
  - unfold bind. destruct (choice_valid_digit (advance 1 w)) as (x & -> & X).
    exists (list_set d (Z.to_nat i) x), 2%nat.
    rewrite list_set_chars, advance_advance. split; [reflexivity|].
    apply list_set_valid; assumption.
  - exists d, 1%nat. split; [reflexivity | exact V].
Qed.

Lemma mutation_loop_valid (p : pyfloat) (cols : list Z) (d : pystr) (w : world) :
  valid_digits d ->
  exists d' n, foldM (State.mutate_at p) cols (chars d) w
               = (Ok (chars d'), advance n w)
               /\ valid_digits d'.
Proof.
  revert d w. induction cols as [|i cols IH]; intros d w V.
  - exists d, 0%nat. split; [|exact V]. destruct w; reflexivity.
  - cbn [foldM]. unfold bind at 1.
    destruct (mutate_at_valid p d i w V) as (d1 & n1 & -> & V1).
    destruct (IH d1 (advance n1 w) V1) as (d2 & n2 & -> & V2).
    exists d2, (n2 + n1)%nat. rewrite advance_advance. split; [reflexivity | exact V2].
Qed.

Lemma init_valid_advance digits n w :
  valid_digits digits ->
  State.__init__ digits (advance n w) =
    (Ok (mkState (next_id w) digits),
     mkWorld (entropy w) (n + cursor w) (N.succ (next_id w))).
Proof. intros V. rewrite (init_valid _ _ V). reflexivity. Qed.

(** [mate] up to the construction of the child: the probability is checked,
    the crossover point drawn and the two slices joined. *)
Lemma mate_eq (a b : State) (p : pyfloat) (w : world) :
  State.mate a b p w =
    if float_le (Finite 0) p && float_lt p (Finite 1) then
      let c := Z.of_N (entropy w (cursor w)) mod 8 in
      let digits := slice (_digits a) None (Some c)
                    ++ slice (_digits b) (Some c) None in
      (digits' <- (if float_lt (Finite 0) p
                   then l <- foldM (State.mutate_at p)
                               (range 0 (len (chars digits))) (chars digits) ;;
                        ret (join l)
                   else ret digits) ;;
       State.__init__ digits') (advance 1 w)
    else (Raise (AssertionError bad_mutation_probability), w).
Proof.
  unfold State.mate. unfold bind at 1. unfold lift at 1.
  destruct (float_le (Finite 0) p && float_lt p (Finite 1)); [|reflexivity].
  cbn [assert_]. unfold bind at 1. rewrite randint_crossover.
  reflexivity.
Qed.

Lemma mate_valid (a b : State) (p : pyfloat) (w : world) :
  invariant a -> invariant b -> in_unit_interval p ->
  exists d n, State.mate a b p w
              = (Ok (mkState (next_id w) d),
                 mkWorld (entropy w) (n + cursor w) (N.succ (next_id w)))
              /\ valid_digits d.
Proof.
  intros Va Vb P. rewrite mate_eq.
  apply unit_interval_spec in P. rewrite P. cbv zeta.
  set (c := Z.of_N (entropy w (cursor w)) mod 8).
  assert (C : 0 <= c < 8) by (apply Z.mod_pos_bound; lia).
  assert (La : len (_digits a) = 8) by (destruct Va as [L _]; unfold len; lia).
  assert (Lb : len (_digits b) = 8) by (destruct Vb as [L _]; unfold len; lia).
  rewrite slice_prefix, slice_suffix by lia.
  assert (V : valid_digits (firstn (Z.to_nat c) (_digits a)
                            ++ skipn (Z.to_nat c) (_digits b))).
  { apply crossover_valid; [exact Va | exact Vb | lia]. }
  set (d := firstn _ _ ++ skipn _ _) in *.
  destruct (float_lt (Finite 0) p).
  - unfold bind at 1. unfold bind at 1.
    destruct (mutation_loop_valid p (range 0 (len (chars d))) d (advance 1 w) V)
      as (d' & n & -> & V').
    unfold ret. rewrite join_chars, advance_advance.
    rewrite (init_valid_advance _ _ _ V'). exists d', (n + 1)%nat.
    split; [reflexivity | exact V'].
  - unfold bind at 1, ret. rewrite (init_valid_advance _ _ _ V).
    exists d, 1%nat. split; [reflexivity | exact V].
Qed.

(** C4. With mutation probability 0 the child is determined by the crossover
    point [c] that [randint(0, 7)] draws: its digits are those of [a] before
    [c] and those of [b] from [c] on. Every [c] from 0 to 7 is drawn in some
    world. *)
Theorem mate_without_mutation (a b : State) :
  invariant a -> invariant b ->
  (forall w, exists c,
      0 <= c <= 7 /\
      fst (randint 0 (State._N - 1) w) = Ok c /\
      fst (State.mate a b (Finite 0) w)
      = Ok (mkState (next_id w)
              (firstn (Z.to_nat c) (_digits a)
               ++ skipn (Z.to_nat c) (_digits b)))) /\
  (forall c, 0 <= c <= 7 ->
             exists w, fst (randint 0 (State._N - 1) w) = Ok c).
Proof.
  intros Va Vb. split.
  - intros w. exists (Z.of_N (entropy w (cursor w)) mod 8).
    assert (C : 0 <= Z.of_N (entropy w (cursor w)) mod 8 < 8)
      by (apply Z.mod_pos_bound; lia).
    split; [lia|]. split; [reflexivity|].
    rewrite mate_eq.
    change (float_le (Finite 0) (Finite 0) && float_lt (Finite 0) (Finite 1))
      with true.
    change (float_lt (Finite 0) (Finite 0)) with false. cbv zeta iota.
    assert (La : len (_digits a) = 8) by (destruct Va as [L _]; unfold len; lia).
    assert (Lb : len (_digits b) = 8) by (destruct Vb as [L _]; unfold len; lia).
    rewrite slice_prefix, slice_suffix by lia.
    unfold bind, ret. rewrite init_valid_advance; [reflexivity|].
    apply crossover_valid; [exact Va | exact Vb | lia].
  - intros c C. exists (mkWorld (fun _ => Z.to_N c) 0 0).
    rewrite randint_crossover. cbn [fst entropy cursor]. f_equal.
    rewrite Z2N.id by lia. apply Z.mod_small. lia.
Qed.

Lemma mate_without_mutation_witness :
  (forall w, exists c,
      0 <= c <= 7 /\
      fst (randint 0 (State._N - 1) w) = Ok c /\
      fst (State.mate (mkState 0 (str "12345678")) (mkState 1 (str "87654321"))
             (Finite 0) w)
      = Ok (mkState (next_id w)
              (firstn (Z.to_nat c) (str "12345678")
               ++ skipn (Z.to_nat c) (str "87654321")))) /\
  (forall c, 0 <= c <= 7 ->
             exists w, fst (randint 0 (State._N - 1) w) = Ok c).
Proof.
  apply (mate_without_mutation (mkState 0 (str "12345678"))
           (mkState 1 (str "87654321")));
    apply valid_digitsb_spec; reflexivity.
Defined.

(** C5. For valid parents and a mutation probability in [0.0, 1.0), [mate]
    returns a State that satisfies the invariant, whatever the generator
    draws (the world [w] fixes the crossover point and every mutation). *)
Theorem mate_keeps_invariant (a b : State) (p : pyfloat) (w : world) :
  invariant a -> invariant b -> in_unit_interval p ->
  exists child w', State.mate a b p w = (Ok child, w') /\ invariant child.
Proof.
  intros Va Vb P. destruct (mate_valid a b p w Va Vb P) as (d & n & E & V).
  eexists _, _. split; [exact E | exact V].
Qed.

Lemma mate_keeps_invariant_witness :
  exists child w',
    State.mate (mkState 0 (str "12345678")) (mkState 1 (str "87654321"))
      MUTATION_PROBABILITY (mkWorld (fun n => N.of_nat n) 0 2)
    = (Ok child, w') /\ invariant child.
Proof.
  apply (mate_keeps_invariant (mkState 0 (str "12345678"))
           (mkState 1 (str "87654321")) MUTATION_PROBABILITY).
  - apply valid_digitsb_spec. reflexivity.
  - apply valid_digitsb_spec. reflexivity.
  - apply unit_interval_spec. reflexivity.
Defined.

(** C7. [mate] fails the assertion on the mutation probability exactly when
    the probability is outside [0.0, 1.0) (1.0, a negative value, an infinity
    or NaN), before anything is drawn; with a probability inside and valid
    parents it does not fail. *)
Theorem mate_rejects_exactly_bad_probability
    (a b : State) (p : pyfloat) (w : world) :
  (~ in_unit_interval p ->
   State.mate a b p w = (Raise (AssertionError bad_mutation_probability), w)) /\
  (invariant a -> invariant b ->
   ((exists w', State.mate a b p w
                = (Raise (AssertionError bad_mutation_probability), w'))
    <-> ~ in_unit_interval p) /\
   (in_unit_interval p -> exists child w', State.mate a b p w = (Ok child, w'))).
Proof.
  assert (R : ~ in_unit_interval p ->
              State.mate a b p w
              = (Raise (AssertionError bad_mutation_probability), w)).
  { intros N. rewrite mate_eq.
    destruct (float_le (Finite 0) p && float_lt p (Finite 1)) eqn:B;
      [|reflexivity].
    exfalso. apply N. apply unit_interval_spec. exact B. }
  split; [exact R|]. intros Va Vb. split.
  - split.
    + intros (w' & E) P.
      destruct (mate_valid a b p w Va Vb P) as (d & n & E' & _). congruence.
    + intros N. exists w. apply R. exact N.
  - intros P. destruct (mate_valid a b p w Va Vb P) as (d & n & E & _).
    eauto.
Qed.

Lemma mate_rejects_exactly_bad_probability_witness :
  State.mate (mkState 0 (str "12345678")) (mkState 1 (str "87654321"))
    (Finite 1) (mkWorld (fun _ => 0%N) 0 2)
  = (Raise (AssertionError bad_mutation_probability),
     mkWorld (fun _ => 0%N) 0 2) /\
  (exists child w',
     State.mate (mkState 0 (str "12345678")) (mkState 1 (str "87654321"))
       (Finite 0) (mkWorld (fun _ => 0%N) 0 2) = (Ok child, w')).
Proof.
  split.
  - apply (mate_rejects_exactly_bad_probability (mkState 0 (str "12345678"))
             (mkState 1 (str "87654321")) (Finite 1)).
    intros P. apply unit_interval_spec in P. discriminate.
  - apply (mate_rejects_exactly_bad_probability (mkState 0 (str "12345678"))
             (mkState 1 (str "87654321")) (Finite 0)).
    + apply valid_digitsb_spec. reflexivity.
    + apply valid_digitsb_spec. reflexivity.
    + apply unit_interval_spec. reflexivity.
Defined.

(** ** Random generation *)

Section Product.

Context {A : Type}.
Variable pool : list A.

Lemma product_len (n : nat) :
  len (product pool n) = len pool ^ Z.of_nat n.
Proof.
  induction n as [|n IH].
  - reflexivity.
  - cbn [product]. unfold len in *.
    rewrite (flat_map_constant_length (c := length (product pool n))).
    + rewrite Nat2Z.inj_mul, IH, Nat2Z.inj_succ, Z.pow_succ_r by lia.
      reflexivity.
    + intros x _. apply length_map.
Qed.

Lemma product_elements (n : nat) (t : list A) :
  In t (product pool n) ->
  length t = n /\ Forall (fun x => In x pool) t.
Proof.
  revert t. induction n as [|n IH]; intros t I.
  - destruct I as [<-|[]]. split; [reflexivity | constructor].
  - cbn [product] in I. apply in_flat_map in I. destruct I as (x & Ix & I).
    apply in_map_iff in I. destruct I as (t' & <- & I').
    destruct (IH t' I') as [L F]. split.
    + cbn. f_equal. exact L.
    + constructor; assumption.
Qed.

Lemma product_cons_NoDup (l : list A) (ts : list (list A)) :
  NoDup l -> NoDup ts ->
  NoDup (flat_map (fun x => map (cons x) ts) l).
Proof.
  intros Hl Hts. induction Hl as [|x l Nx Hl IH].
  - constructor.
  - cbn [flat_map]. apply NoDup_app.
    + apply NoDup_map_NoDup_ForallPairs; [|exact Hts].
      intros a b _ _ E. injection E as E. exact E.
    + exact IH.
    + intros t I1 I2. apply in_map_iff in I1. destruct I1 as (t1 & <- & _).
      apply in_flat_map in I2. destruct I2 as (y & Iy & I2).
      apply in_map_iff in I2. destruct I2 as (t2 & E & _).
      injection E as -> _. exact (Nx Iy).
Qed.

Lemma product_NoDup (n : nat) : NoDup pool -> NoDup (product pool n).
Proof.
  intros H. induction n as [|n IH].
  - repeat constructor. intros [].
  - cbn [product]. apply product_cons_NoDup; assumption.
Qed.

End Product.

Lemma remove_at_split {A} (l1 l2 : list A) (a : A) :
  remove_at (length l1) (l1 ++ a :: l2) = l1 ++ l2.
Proof.
  unfold remove_at.
  rewrite firstn_app, Nat.sub_diag, firstn_all, app_nil_r.
  rewrite skipn_app, skipn_all2 by lia.
  replace (S (length l1) - length l1)%nat with 1%nat by lia. reflexivity.
Qed.

(** [k] draws from a pool that holds at least [k] elements: the sample has
    [k] elements of the pool, and no element twice when the pool has none
    twice; each draw uses one word of the generator. *)
Lemma draw_sample_spec {A} (k : nat) (pool : list A) (w : world) :
  (k <= length pool)%nat ->
  exists l, draw_sample pool k w = (Ok l, advance k w) /\
            length l = k /\ incl l pool /\ (NoDup pool -> NoDup l).
Proof.
  revert pool w. induction k as [|k IH]; intros pool w H.
  - exists []. split; [destruct w; reflexivity|].
    split; [reflexivity|]. split; [intros x []|]. intros _. constructor.
  - cbn [draw_sample]. unfold bind at 1, next_word.
    set (j := (N.to_nat (entropy w (cursor w)) mod length pool)%nat).
    assert (J : (j < length pool)%nat) by (apply Nat.mod_upper_bound; lia).
    destruct (nth_error pool j) as [x|] eqn:E;
      [|apply nth_error_None in E; lia].
    destruct (nth_error_split _ _ E) as (l1 & l2 & -> & L1).
    rewrite <- L1, remove_at_split.
    rewrite length_app in H. cbn [length] in H.
    destruct (IH (l1 ++ l2) (advance 1 w)) as (rest & R & Lr & Ir & Nr).
    { rewrite length_app. lia. }
    exists (x :: rest). unfold bind, ret.
    change (mkWorld (entropy w) (S (cursor w)) (next_id w)) with (advance 1 w).
    rewrite R, advance_advance.
    replace (k + 1)%nat with (S k) by lia.
    split; [reflexivity|]. split; [cbn; lia|]. split.
    + intros y [<-|I]; [apply in_elt|].
      apply Ir in I. apply in_app_or in I. apply in_or_app.
      destruct I; [left | right; right]; assumption.
    + intros N. apply NoDup_remove in N. destruct N as [N1 N2].
      constructor; [|exact (Nr N1)].
      intros I. apply N2. apply Ir. exact I.
Qed.

Lemma sample_spec {A} (population : list A) (k : Z) (w : world) :
  0 <= k <= len population ->
  exists l, sample population k w = (Ok l, advance (Z.to_nat k) w) /\
            len l = k /\ incl l population /\ (NoDup population -> NoDup l).
Proof.
  intros H. unfold sample.
  replace ((k <? 0) || (len population <? k)) with false by lia.
  destruct (draw_sample_spec (Z.to_nat k) population w) as (l & E & L & I & N).
  { unfold len in H. lia. }
  exists l. repeat split; auto. unfold len. lia.
Qed.

Lemma sample_too_large {A} (population : list A) (k : Z) (w : world) :
  len population < k -> sample population k w = (Raise ValueError, w).
Proof.
  intros H. unfold sample.
  replace ((k <? 0) || (len population <? k)) with true by lia. reflexivity.
Qed.

(** A tuple of one-character strings is the characters of its join. *)
Lemma chars_join (t : list pystr) (s : pystr) :
  Forall (fun x => In x (chars s)) t -> chars (join t) = t.
Proof.
  induction 1 as [|x t I _ IH].
  - reflexivity.
  - unfold chars in I. unfold chars, join in IH. apply in_map_iff in I. destruct I as (c & <- & _).
    cbn. rewrite IH. reflexivity.
Qed.

Lemma join_valid (t : list pystr) :
  In t (product (chars State._VALID_DIGITS) 8) -> valid_digits (join t).
Proof.
  intros I. apply product_elements in I. destruct I as [L F].
  pose proof (chars_join t _ F) as E. split.
  - transitivity (length (chars (join t))).
    + unfold chars. rewrite length_map. reflexivity.
    + rewrite E. exact L.
  - apply Forall_forall. intros c Ic.
    assert (I : In [c] t).
    { rewrite <- E. unfold chars.
      exact (in_map (fun c : ascii => [c]) _ _ Ic). }
    rewrite Forall_forall in F. apply F in I. unfold chars in I.
    apply in_map_iff in I. destruct I as (c' & Ec & I). injection Ec as ->.
    assert (V : Forall is_row State._VALID_DIGITS).
    { apply forallb_is_rowb. reflexivity. }
    rewrite Forall_forall in V. auto.
Qed.

(** The loop of [generator] over the sample: one State per tuple, with the
    tuple's digits and the next identities. *)
Lemma yield_states (picked : list (list pystr)) (w : world) :
  Forall (fun t => valid_digits (join t)) picked ->
  exists states,
    mapM (fun s => State.__init__ (join s)) picked w
    = (Ok states,
       mkWorld (entropy w) (cursor w)
         (next_id w + N.of_nat (length picked))%N) /\
    map _digits states = map join picked /\
    map obj_id states
    = map (fun k => (next_id w + N.of_nat k)%N) (seq 0 (length picked)).
Proof.
  intros F. revert w. induction F as [|t picked V _ IH]; intros w.
  - exists []. split; [|split; reflexivity].
    cbn. unfold ret. rewrite N.add_0_r. destruct w; reflexivity.
  - cbn [mapM]. unfold bind at 1. rewrite (init_valid _ _ V).
    unfold bind at 1.
    destruct (IH (mkWorld (entropy w) (cursor w) (N.succ (next_id w))))
      as (states & -> & D & I).
    exists (mkState (next_id w) (join t) :: states).
    unfold bind, ret. cbn [entropy cursor next_id] in *. split; [|split].
    + do 2 f_equal. cbn [length]. lia.
    + cbn. f_equal. exact D.
    + cbn [map length seq obj_id]. f_equal; [lia|].
      rewrite I, <- seq_shift, map_map. apply map_ext. intros k. lia.
Qed.

Lemma possible_states_loaded (cls : State_class) :
  class_ok cls ->
  State.possible_states (State.load cls)
  = product (chars State._VALID_DIGITS) 8.
Proof. intros [-> | ->]; reflexivity. Qed.

Lemma possible_states_len :
  len (product (chars State._VALID_DIGITS) 8) = 8 ^ 8.
Proof. rewrite product_len. reflexivity. Qed.

Lemma generator_eq (cls : State_class) (num_states : Z) (w : world) :
  class_ok cls ->
  snd (State.generator cls num_states) w =
    if 0 <? num_states then
      (picked <- sample (product (chars State._VALID_DIGITS) 8) num_states ;;
       mapM (fun s => State.__init__ (join s)) picked) w
    else (Raise (AssertionError invalid_number_of_states), w).
Proof.
  intros C. unfold State.generator.
  destruct (0 <? num_states); cbn [negb snd]; [|reflexivity].
  rewrite (possible_states_loaded cls C). reflexivity.
Qed.

(** C6. [generator(count)], run to its end, yields exactly [count] States, no
    two with the same digits, each satisfying the invariant; they are taken
    at distinct positions of the 8^8 tuples of [_possible_states]. It fails
    when [count <= 0] (the assertion) and when [count] exceeds 8^8
    ([random.sample] raises [ValueError]). *)
Theorem generator_yields_distinct_states
    (cls : State_class) (count : Z) (w : world) :
  class_ok cls ->
  len (State.possible_states (State.load cls)) = 8 ^ 8 /\
  (1 <= count <= 8 ^ 8 ->
   exists states w',
     snd (State.generator cls count) w = (Ok states, w') /\
     len states = count /\
     NoDup (map _digits states) /\
     Forall invariant states /\
     incl (map _digits states)
       (map join (State.possible_states (State.load cls)))) /\
  (count <= 0 ->
   snd (State.generator cls count) w
   = (Raise (AssertionError invalid_number_of_states), w)) /\
  (8 ^ 8 < count ->
   snd (State.generator cls count) w = (Raise ValueError, w)).
Proof.
  intros C. rewrite (possible_states_loaded cls C).
  split; [exact possible_states_len|]. split; [|split].
  - intros H. rewrite (generator_eq cls count w C).
    replace (0 <? count) with true by lia.
    destruct (sample_spec (product (chars State._VALID_DIGITS) 8) count w)
      as (picked & E & L & I & N).
    { rewrite possible_states_len. lia. }
    assert (V : Forall (fun t => valid_digits (join t)) picked).
    { apply Forall_forall. intros t It. apply join_valid. apply I. exact It. }
    destruct (yield_states picked (advance (Z.to_nat count) w) V)
      as (states & Y & D & _).
    exists states. eexists. unfold bind. rewrite E, Y.
    split; [reflexivity|]. split; [|split; [|split]].
    + unfold len in *. rewrite <- (length_map _digits), D, length_map. exact L.
    + rewrite D. apply NoDup_map_NoDup_ForallPairs.
      * intros t1 t2 I1 I2 J.
        apply I, product_elements in I1. apply I, product_elements in I2.
        rewrite <- (chars_join t1 _ (proj2 I1)), <- (chars_join t2 _ (proj2 I2)).
        f_equal. exact J.
      * apply N. apply product_NoDup.
        apply (nodupb_sound (fun a b => str_eqb a b)); [|reflexivity].
        intros x. induction x as [|c x IHx]; [reflexivity|].
        cbn. unfold ascii_eqb. rewrite Ascii.eqb_refl. exact IHx.
    + apply Forall_forall. intros s Is. unfold invariant.
      assert (J : In (_digits s) (map join picked)).
      { rewrite <- D. apply in_map. exact Is. }
      apply in_map_iff in J. destruct J as (t & <- & It).
      rewrite Forall_forall in V. auto.
    + rewrite D. intros d Id. apply in_map_iff in Id.
      destruct Id as (t & <- & It). apply in_map. apply I. exact It.
  - intros H. rewrite (generator_eq cls count w C).
    replace (0 <? count) with false by lia. reflexivity.
  - intros H. rewrite (generator_eq cls count w C).
    replace (0 <? count) with true by lia. unfold bind.
    rewrite sample_too_large; [reflexivity|].
    rewrite possible_states_len. exact H.
Qed.

Lemma generator_yields_distinct_states_witness :
  (exists states w',
     snd (State.generator State.class0 K) (mkWorld (fun n => N.of_nat n) 0 0)
     = (Ok states, w') /\
     len states = K /\
     NoDup (map _digits states) /\
     Forall invariant states /\
     incl (map _digits states)
       (map join (State.possible_states (State.load State.class0)))) /\
  snd (State.generator State.class0 0) (mkWorld (fun n => N.of_nat n) 0 0)
  = (Raise (AssertionError invalid_number_of_states),
     mkWorld (fun n => N.of_nat n) 0 0) /\
  snd (State.generator State.class0 (8 ^ 8 + 1))
    (mkWorld (fun n => N.of_nat n) 0 0)
  = (Raise ValueError, mkWorld (fun n => N.of_nat n) 0 0).
Proof.
  split; [|split].
  - apply (generator_yields_distinct_states State.class0 K).
    + left. reflexivity.
    + unfold K. lia.
  - apply (generator_yields_distinct_states State.class0 0).
    + left. reflexivity.
    + lia.
  - apply (generator_yields_distinct_states State.class0 (8 ^ 8 + 1)).
    + left. reflexivity.
    + lia.
Defined.

(** ** The search loop *)

Lemma pop_okb_spec (v : vars) (w : world) :
  pop_okb v w = true -> pop_ok v w.
Proof.
  unfold pop_okb, pop_ok. rewrite !andb_true_iff, !forallb_forall.
  intros [[H1 H2] H3]. split; [|split].
  - apply Forall_forall. intros s I. apply valid_digitsb_spec. auto.
  - apply Forall_forall. intros s I. apply N.ltb_lt. auto.
  - lia.
Qed.

Lemma fitness_score (s : State) : invariant s -> fitness s = Ok (score s).
Proof. apply fitness_valid. Qed.

Lemma goal_solves (s : State) : invariant s -> goal s = Ok (solves s).
Proof. intros V. unfold goal. rewrite (fitness_score s V). reflexivity. Qed.

(** A State that is not yet a key of the mapping becomes its last entry. *)
Lemma dict_set_fresh (d : dict) (k : State) (v : Z) :
  Forall (fun s => obj_id s <> obj_id k) (dict_keys d) ->
  dict_set d k v = d ++ [(k, v)].
Proof.
  induction d as [|[k' v'] d IH]; intros F.
  - reflexivity.
  - cbn [dict_keys map fst] in F. inversion F as [|? ? N F']. subst.
    cbn [dict_set app]. unfold State_eqb.
    apply N.eqb_neq in N. rewrite N. f_equal. apply IH. exact F'.
Qed.

Lemma insert_desc_perm {A} (key : A -> Z) (x : A) (l : list A) :
  Permutation (insert_desc key x l) (x :: l).
Proof.
  induction l as [|y l IH].
  - reflexivity.
  - cbn [insert_desc]. destruct (key x <? key y).
    + rewrite IH. apply perm_swap.
    + reflexivity.
Qed.

Lemma sort_desc_perm {A} (key : A -> Z) (l : list A) :
  Permutation (sort_desc key l) l.
Proof.
  induction l as [|x l IH].
  - reflexivity.
  - cbn [sort_desc fold_right]. rewrite insert_desc_perm.
    constructor. exact IH.
Qed.

Lemma sorted_by_value_desc_perm (d : dict) :
  Permutation (sorted_by_value_desc d) (dict_keys d).
Proof. apply Permutation_map. apply sort_desc_perm. Qed.

(** The mating pool of a population of at least [K] valid States: [K] valid
    States. *)
Lemma mating_pool (d : dict) :
  Forall invariant (dict_keys d) -> K <= len d ->
  let pool := slice (sorted_by_value_desc d) None (Some K) in
  Forall invariant pool /\ len pool = K.
Proof.
  intros F L pool.
  pose proof (sorted_by_value_desc_perm d) as P.
  assert (E : len (sorted_by_value_desc d) = len d).
  { unfold len. rewrite (Permutation_length P). unfold dict_keys.
    rewrite length_map. reflexivity. }
  unfold pool. rewrite slice_prefix by (unfold K in *; lia). split.
  - apply Forall_firstn_skipn.
    apply (Permutation_Forall (Permutation_sym P)). exact F.
  - unfold len in *. rewrite length_firstn. unfold K in *. lia.
Qed.

Lemma MUTATION_PROBABILITY_ok : in_unit_interval MUTATION_PROBABILITY.
Proof. apply unit_interval_spec. reflexivity. Qed.

(** One breeding step: the child of the pair at [i] and [i + 1] is a new,
    valid State; it is stored with its score, and recorded as the golden
    child when it solves the puzzle. *)
Lemma breed_step (pool : list State) (v : vars) (i : Z) (w : world) :
  Forall invariant pool -> 0 <= i -> i + 1 < len pool ->
  exists child n,
    breed pool v i w
    = (Ok (mkVars (dict_set (hashmap v) child (score child))
             (searching v && negb (solves child))
             (iterations v + 1) (counter v)
             (if solves child then Some child else golden_child v)),
       mkWorld (entropy w) (n + cursor w) (N.succ (next_id w))) /\
    obj_id child = next_id w /\ invariant child.
Proof.
  intros F Hi Hj. unfold breed.
  destruct (seq_getitem_nth pool i) as (a & Na & Ga); [lia|].
  destruct (seq_getitem_nth pool (i + 1)) as (b & Nb & Gb); [lia|].
  rewrite Forall_forall in F.
  pose proof (F a (nth_error_In _ _ Na)) as Va.
  pose proof (F b (nth_error_In _ _ Nb)) as Vb.
  destruct (mate_valid a b MUTATION_PROBABILITY w Va Vb MUTATION_PROBABILITY_ok)
    as (d & n & E & V).
  exists (mkState (next_id w) d), n.
  assert (Vc : invariant (mkState (next_id w) d)) by exact V.
  unfold bind, lift. rewrite Ga, Gb, E.
  rewrite (fitness_score _ Vc), (goal_solves _ Vc).
  split; [|split; [reflexivity | exact Vc]].
  unfold ret. destruct (solves (mkState (next_id w) d)).
  - rewrite andb_false_r. reflexivity.
  - rewrite andb_true_r. reflexivity.
Qed.

Lemma len_cons {A} (x : A) (l : list A) : len (x :: l) = 1 + len l.
Proof. unfold len. cbn [length]. lia. Qed.

(** The loop over the pairs: one child per index, whether or not an earlier
    child solved the puzzle. *)
Lemma breed_loop (pool : list State) (idxs : list Z) (v : vars) (w : world) :
  Forall invariant pool ->
  Forall (fun i => 0 <= i /\ i + 1 < len pool) idxs ->
  Forall (fun s => (obj_id s < next_id w)%N) (dict_keys (hashmap v)) ->
  exists children n,
    foldM (breed pool) idxs v w
    = (Ok (mkVars (hashmap v ++ map (fun c => (c, score c)) children)
             (searching v && forallb (fun c => negb (solves c)) children)
             (iterations v + len idxs) (counter v)
             (last_solution children (golden_child v))),
       mkWorld (entropy w) (n + cursor w)
         (next_id w + N.of_nat (length idxs))%N) /\
    length children = length idxs /\
    Forall invariant children /\
    Forall (fun c => (next_id w <= obj_id c
                      < next_id w + N.of_nat (length idxs))%N) children.
Proof.
  intros Fp Fi. revert v w. induction Fi as [|i idxs [Hi Hj] _ IH]; intros v w Fh.
  - exists [], 0%nat. split; [|repeat split; constructor].
    cbn [foldM map forallb last_solution fold_left length]. unfold ret.
    rewrite app_nil_r, andb_true_r, N.add_0_r. change (len []) with 0.
    rewrite Z.add_0_r. destruct v, w; reflexivity.
  - cbn [foldM]. unfold bind at 1.
    destruct (breed_step pool v i w Fp Hi Hj) as (child & n1 & -> & Ic & Vc).
    rewrite (dict_set_fresh (hashmap v) child (score child)).
    2:{ apply Forall_forall. intros s Is. rewrite Forall_forall in Fh.
        specialize (Fh s Is). rewrite Ic. lia. }
    match goal with |- context [foldM _ _ ?v1 ?w1] =>
      destruct (IH v1 w1) as (rest & n2 & -> & L & Fr & Fid) end.
    { cbn [hashmap next_id]. unfold dict_keys. rewrite map_app.
      apply Forall_app. split.
      - apply Forall_forall. intros s Is. rewrite Forall_forall in Fh.
        specialize (Fh s Is). lia.
      - repeat constructor. cbn [fst]. rewrite Ic. lia. }
    exists (child :: rest), (n2 + n1)%nat.
    cbn [hashmap searching iterations counter golden_child entropy cursor next_id] in *.
    split; [|split; [|split]].
    + f_equal; [f_equal|].
      * f_equal.
        -- rewrite <- app_assoc. reflexivity.
        -- cbn [forallb]. rewrite andb_assoc. reflexivity.
        -- rewrite len_cons. lia.
      * f_equal; [lia|]. cbn [length]. lia.
    + cbn [length]. f_equal. exact L.
    + constructor; assumption.
    + constructor.
      * rewrite Ic. cbn [length]. lia.
      * apply Forall_forall. intros c I. rewrite Forall_forall in Fid.
        specialize (Fid c I). cbn [length]. lia.
Qed.

Lemma len_range (lo hi : Z) : lo <= hi -> len (range lo hi) = hi - lo.
Proof.
  intros H. unfold len, range. rewrite length_map, length_seq. lia.
Qed.

(** The last solution of a list that ends with a solution and States that
    are none. *)
Lemma last_solution_split (pre post : list State) (g : State)
    (before : option State) :
  solves g = true -> forallb (fun c => negb (solves c)) post = true ->
  last_solution (pre ++ g :: post) before = Some g.
Proof.
  intros G P. unfold last_solution. rewrite fold_left_app. cbn [fold_left].
  rewrite G. clear G. induction post as [|c post IH].
  - reflexivity.
  - cbn [forallb] in P. apply andb_true_iff in P. destruct P as [C P].
    cbn [fold_left]. apply negb_true_iff in C. rewrite C. apply IH. exact P.
Qed.

Lemma last_solution_none (children : list State) (before : option State) :
  forallb (fun c => negb (solves c)) children = true ->
  last_solution children before = before.
Proof.
  unfold last_solution. induction children as [|c l IH]; intros P.
  - reflexivity.
  - cbn [forallb] in P. apply andb_true_iff in P. destruct P as [C P].
    cbn [fold_left]. apply negb_true_iff in C. rewrite C. apply IH. exact P.
Qed.

(** One generation, for a population the loop can meet. *)
Lemma generation_spec (v : vars) (w : world) :
  pop_ok v w ->
  exists children n,
    generation v w
    = (Ok (mkVars (hashmap v ++ map (fun c => (c, score c)) children)
             (searching v && forallb (fun c => negb (solves c)) children)
             (iterations v + (K - 1)) (counter v + 1)
             (last_solution children (golden_child v))),
       mkWorld (entropy w) (n + cursor w) (next_id w + 999)%N) /\
    len children = K - 1 /\
    Forall invariant children /\
    Forall (fun c => (next_id w <= obj_id c < next_id w + 999)%N) children.
Proof.
  intros (Fv & Fid & L). unfold generation.
  destruct (mating_pool (hashmap v) Fv L) as [Fp Lp].
  set (pool := slice (sorted_by_value_desc (hashmap v)) None (Some K)) in *.
  destruct (breed_loop pool (range 0 (K - 1))
              (mkVars (hashmap v) (searching v) (iterations v)
                 (counter v + 1) (golden_child v)) w Fp)
    as (children & n & E & Lc & Fc & Fi).
  { apply Forall_forall. intros i I. apply in_range in I.
    rewrite Lp. unfold K in *. lia. }
  { exact Fid. }
  assert (R : length (range 0 (K - 1)) = 999%nat).
  { unfold range. rewrite length_map, length_seq. reflexivity. }
  exists children, n. rewrite E.
  cbn [hashmap searching iterations counter golden_child].
  rewrite R, len_range by (unfold K; lia). rewrite Z.sub_0_r.
  split; [reflexivity|]. split; [|split].
  - unfold len. rewrite Lc, R. reflexivity.
  - exact Fc.
  - exact Fi.
Qed.

Lemma init_ok_inv (digits : pystr) (w w' : world) (s : State) :
  State.__init__ digits w = (Ok s, w') ->
  s = mkState (next_id w) digits /\
  w' = mkWorld (entropy w) (cursor w) (N.succ (next_id w)) /\
  valid_digits digits.
Proof.
  intros H.
  assert (V : valid_digits digits).
  { rewrite init_eq in H.
    destruct (len digits =? 8) eqn:E; [|discriminate].
    destruct (State.check_digits 0 (chars digits)) as [[]|e] eqn:C;
      [|discriminate].
    split; [unfold len in E; lia | exact (check_digits_inv _ _ C)]. }
  rewrite (init_valid _ _ V) in H. injection H as <- <-. auto.
Qed.

(** C1 (amended). Equality and hashing of States are by identity: a State is
    equal to itself, and two States built by two calls of the constructor
    are different keys, also when their digits are the same; stored in a
    mapping one after the other, both are kept, each with its own value. *)
Theorem state_equality_is_identity
    (d1 d2 : pystr) (w w1 w' w2 : world) (s1 s2 : State) :
  State.__init__ d1 w = (Ok s1, w1) ->
  (next_id w1 <= next_id w')%N ->
  State.__init__ d2 w' = (Ok s2, w2) ->
  State_eqb s1 s1 = true /\
  State_eqb s1 s2 = false /\
  forall (h : dict) (f1 f2 : Z),
    Forall (fun s => (obj_id s < next_id w)%N) (dict_keys h) ->
    dict_set (dict_set h s1 f1) s2 f2 = h ++ [(s1, f1); (s2, f2)].
Proof.
  intros H1 L H2.
  apply init_ok_inv in H1. destruct H1 as (-> & -> & _).
  apply init_ok_inv in H2. destruct H2 as (-> & -> & _).
  cbn [next_id] in L. unfold State_eqb. cbn [obj_id].
  split; [apply N.eqb_refl|]. split; [apply N.eqb_neq; lia|].
  intros h f1 f2 F.
  rewrite (dict_set_fresh h).
  2:{ apply Forall_forall. intros s I. rewrite Forall_forall in F.
      specialize (F s I). cbn [obj_id]. lia. }
  rewrite (dict_set_fresh (h ++ _)).
  2:{ unfold dict_keys. rewrite map_app. apply Forall_app. split.
      - apply Forall_forall. intros s I. rewrite Forall_forall in F.
        specialize (F s I). cbn [obj_id]. lia.
      - repeat constructor. cbn [fst obj_id]. lia. }
  rewrite <- app_assoc. reflexivity.
Qed.

Lemma state_equality_is_identity_witness :
  State_eqb (mkState 0 (str "41582736")) (mkState 0 (str "41582736")) = true /\
  State_eqb (mkState 0 (str "41582736")) (mkState 1 (str "41582736")) = false /\
  forall (h : dict) (f1 f2 : Z),
    Forall (fun s => (obj_id s < 0)%N) (dict_keys h) ->
    dict_set (dict_set h (mkState 0 (str "41582736")) f1)
      (mkState 1 (str "41582736")) f2
    = h ++ [(mkState 0 (str "41582736"), f1);
            (mkState 1 (str "41582736"), f2)].
Proof.
  apply (state_equality_is_identity (str "41582736") (str "41582736")
           (mkWorld (fun _ => 0%N) 0 0) (mkWorld (fun _ => 0%N) 0 1)
           (mkWorld (fun _ => 0%N) 0 1) (mkWorld (fun _ => 0%N) 0 2)).
  - reflexivity.
  - cbn. lia.
  - reflexivity.
Defined.

(** Two children of the same parents with the same digits: they are not
    equal, and the mapping keeps an entry for each. *)
Lemma identical_children_are_two_keys :
  let a := mkState 0 (str "12345678") in
  let b := mkState 1 (str "41582736") in
  let c1 := mkState 1000 (str "41582736") in
  let c2 := mkState 1001 (str "41582736") in
  State.mate a b MUTATION_PROBABILITY world0
  = (Ok c1, mkWorld (entropy world0) 9 1001) /\
  State.mate a b MUTATION_PROBABILITY (mkWorld (entropy world0) 9 1001)
  = (Ok c2, mkWorld (entropy world0) 18 1002) /\
  _digits c1 = _digits c2 /\
  State_eqb c1 c2 = false /\
  dict_set (dict_set [] c1 28) c2 28 = [(c1, 28); (c2, 28)].
Proof.
  repeat split.
Qed.

Lemma search_step (fuel : nat) (v : vars) (w : world) :
  searching v = true ->
  search (S fuel) v w = (v' <- generation v ;; search fuel v') w.
Proof. intros S. cbn [search]. rewrite S. reflexivity. Qed.

Lemma search_done (fuel : nat) (v : vars) (w : world) :
  searching v = false -> search fuel v w = (Ok (Some v), w).
Proof. intros S. destruct fuel; cbn [search]; rewrite S; reflexivity. Qed.

(** C2 (amended). Every generation performs all K - 1 = 999 matings,
    whether or not a child satisfies the goal test: each child is stored as
    a new entry, [iterations] grows by 999, and when some child is a goal the
    last such child of the generation is the recorded solution and the loop
    ends after the generation. *)
Theorem generation_breeds_every_pair (v : vars) (w : world) :
  pop_ok v w ->
  exists children v' w',
    generation v w = (Ok v', w') /\
    len children = K - 1 /\
    dict_keys (hashmap v') = dict_keys (hashmap v) ++ children /\
    Forall (fun c => goal c = Ok (solves c)) children /\
    iterations v' = iterations v + (K - 1) /\
    (forallb (fun c => negb (solves c)) children = true ->
     searching v' = searching v /\ golden_child v' = golden_child v) /\
    (forall pre g post,
       children = pre ++ g :: post -> solves g = true ->
       forallb (fun c => negb (solves c)) post = true ->
       searching v' = false /\ golden_child v' = Some g) /\
    (searching v = true ->
     forall fuel, search (S fuel) v w = search fuel v' w') /\
    (searching v' = false ->
     forall fuel, search fuel v' w' = (Ok (Some v'), w')) /\
    pop_ok v' w'.
Proof.
  intros P. destruct (generation_spec v w P) as (children & n & E & L & Fc & Fi).
  destruct P as (Fv & Fid & Lk).
  exists children. eexists. eexists. split; [exact E|].
  cbn [hashmap searching iterations golden_child next_id].
  split; [exact L|]. split.
  { unfold dict_keys. rewrite map_app, map_map. cbn [fst].
    rewrite map_id. reflexivity. }
  split.
  { apply Forall_forall. intros c I. apply goal_solves.
    rewrite Forall_forall in Fc. auto. }
  split; [reflexivity|]. split.
  { intros N. rewrite N, andb_true_r. split; [reflexivity|].
    apply last_solution_none. exact N. }
  split.
  { intros pre g post -> G N. split.
    - rewrite forallb_app. cbn [forallb]. rewrite G.
      cbn [negb andb]. rewrite andb_false_r, andb_false_r. reflexivity.
    - apply last_solution_split; assumption. }
  split.
  { intros S fuel. rewrite (search_step fuel v w S). unfold bind.
    rewrite E. reflexivity. }
  split.
  { intros S fuel. apply search_done. exact S. }
  unfold pop_ok. cbn [hashmap next_id]. split; [|split].
  - unfold dict_keys. rewrite map_app, map_map. cbn [fst]. rewrite map_id.
    apply Forall_app. split; assumption.
  - unfold dict_keys. rewrite map_app, map_map. cbn [fst]. rewrite map_id.
    apply Forall_app. split.
    + apply Forall_forall. intros s I. rewrite Forall_forall in Fid.
      specialize (Fid s I). lia.
    + apply Forall_forall. intros s I. rewrite Forall_forall in Fi.
      specialize (Fi s I). lia.
  - unfold len in *. rewrite length_app. lia.
Qed.

Lemma generation_breeds_every_pair_witness :
  exists children v' w',
    generation vars0 world0 = (Ok v', w') /\
    len children = K - 1 /\
    dict_keys (hashmap v') = dict_keys (hashmap vars0) ++ children /\
    Forall (fun c => goal c = Ok (solves c)) children /\
    iterations v' = iterations vars0 + (K - 1) /\
    (forallb (fun c => negb (solves c)) children = true ->
     searching v' = searching vars0 /\ golden_child v' = golden_child vars0) /\
    (forall pre g post,
       children = pre ++ g :: post -> solves g = true ->
       forallb (fun c => negb (solves c)) post = true ->
       searching v' = false /\ golden_child v' = Some g) /\
    (searching vars0 = true ->
     forall fuel, search (S fuel) vars0 world0 = search fuel v' w') /\
    (searching v' = false ->
     forall fuel, search fuel v' w' = (Ok (Some v'), w')) /\
    pop_ok v' w'.
Proof.
  apply (generation_breeds_every_pair vars0 world0).
  apply pop_okb_spec. vm_compute. reflexivity.
Defined.

(** The first child of this generation is a goal, and the generation goes
    on: 999 matings are counted, 999 children are stored, and the recorded
    solution is the second child, another goal. *)
Lemma first_goal_does_not_end_generation :
  on_ok (fst (breed (slice (sorted_by_value_desc (hashmap vars0)) None (Some K))
                vars0 0 world0))
    (fun v =>
       iterations v = 1 /\ searching v = false /\
       golden_child v = Some (mkState 1000 (str "15863724"))) /\
  goal (mkState 1000 (str "15863724")) = Ok true /\
  on_ok (fst (generation vars0 world0))
    (fun v =>
       iterations v = 999 /\
       len (hashmap v) = len (hashmap vars0) + 999 /\
       golden_child v = Some (mkState 1001 (str "16837425")) /\
       fst (search 1 vars0 world0) = Ok (Some v)).
Proof.
  vm_compute. repeat split.
Qed.

(** ** More on indexing and construction *)

(** X1. A key of one letter is looked up at the position of the letter in
    [_FILES], and fails the assertion when the letter is no file. *)
Theorem getitem_one_letter (s : State) (c : ascii) :
  (forall n, nth_error State._FILES n = Some c ->
             State.__getitem__ s (KStr [c])
             = State.__getitem__ s (KInt (Z.of_nat n))) /\
  (~ In c State._FILES ->
   State.__getitem__ s (KStr [c]) = Raise (AssertionError invalid_file)).
Proof.
  split.
  - intros n H. apply getitem_file_letter. exact H.
  - apply getitem_unknown_letter.
Qed.

Lemma seq_getitem_out_of_range {A} (s : list A) (i : Z) :
  i < - len s \/ len s <= i -> seq_getitem s i = Raise IndexError.
Proof.
  intros H. unfold seq_getitem.
  destruct (i <? 0) eqn:N.
  - replace ((i + len s <? 0) || (len s <=? i + len s)) with true by lia.
    reflexivity.
  - replace ((i <? 0) || (len s <=? i)) with true by lia. reflexivity.
Qed.

(** X3. An integer index of a valid State gives a row digit exactly when it lies
    in [-8, 8); any other index raises [IndexError]. *)
Theorem getitem_index_bounds (s : State) (i : Z) :
  invariant s ->
  (-8 <= i < 8 ->
   exists c, State.__getitem__ s (KInt i) = Ok [c] /\ is_row c) /\
  (i < -8 \/ 8 <= i -> State.__getitem__ s (KInt i) = Raise IndexError).
Proof.
  intros [L F]. assert (E : len (_digits s) = 8) by (unfold len; lia).
  cbn [State.__getitem__]. unfold str_getitem. split.
  - intros H.
    assert (G : exists j, 0 <= j < 8 /\
                          seq_getitem (_digits s) i = seq_getitem (_digits s) j).
    { destruct (Z.ltb_spec i 0).
      - exists (8 + i). split; [lia|].
        rewrite seq_getitem_negative by lia. rewrite E. reflexivity.
      - exists i. split; [lia | reflexivity]. }
    destruct G as (j & Hj & ->).
    destruct (seq_getitem_nth (_digits s) j) as (c & N & ->); [lia|].
    exists c. split; [reflexivity|].
    rewrite Forall_forall in F. apply F. exact (nth_error_In _ _ N).
  - intros H. rewrite seq_getitem_out_of_range by lia. reflexivity.
Qed.

Lemma getitem_index_bounds_witness :
  (exists c, State.__getitem__ (mkState 0 (str "41582736")) (KInt (-8))
             = Ok [c] /\ is_row c) /\
  State.__getitem__ (mkState 0 (str "41582736")) (KInt 8) = Raise IndexError.
Proof.
  split.
  - apply (getitem_index_bounds (mkState 0 (str "41582736")) (-8)).
    + apply valid_digitsb_spec. reflexivity.
    + lia.
  - apply (getitem_index_bounds (mkState 0 (str "41582736")) 8).
    + apply valid_digitsb_spec. reflexivity.
    + lia.
Defined.

Lemma slice_split {A} (s : list A) (c : Z) :
  slice s None (Some c) ++ slice s (Some c) None = s.
Proof.
  unfold slice. cbn [clamp].
  set (m := if c <? 0 then Z.max (c + len s) 0 else Z.min c (len s)).
  assert (M : 0 <= m <= len s).
  { unfold m, len. destruct (Z.ltb_spec c 0); lia. }
  rewrite Z.sub_0_r. cbn [Z.to_nat skipn].
  rewrite (firstn_all2 (n := Z.to_nat (len s - m))).
  - apply firstn_skipn.
  - rewrite length_skipn. unfold len in *. lia.
Qed.

(** X4. For every integer [c], also a negative one or one past the end, the two
    slices [s[:c]] and [s[c:]] put together are the digits of [s]. *)
Theorem slices_recompose (s : State) (c : Z) :
  exists h t,
    State.__getitem__ s (KSlice None (Some c)) = Ok h /\
    State.__getitem__ s (KSlice (Some c) None) = Ok t /\
    h ++ t = State.__str__ s.
Proof.
  eexists _, _. split; [reflexivity|]. split; [reflexivity|].
  apply slice_split.
Qed.

Lemma check_digits_first_bad (i : nat) (pre post : pystr) (c : ascii) :
  Forall is_row pre -> ~ is_row c ->
  State.check_digits i (chars (pre ++ c :: post))
  = Raise (match digit_value c with
           | Some _ => AssertionError (invalid_digit_value (i + length pre + 1))
           | None => ValueError
           end).
Proof.
  intros F N. revert i. induction F as [|x pre (v & E & Hv) _ IH]; intros i.
  - cbn [app chars map State.check_digits]. unfold py_int_or_0.
    rewrite py_int_char. destruct (digit_value c) as [v|] eqn:E; cbn [rbind].
    + change State._N with 8.
      destruct ((1 <=? v) && (v <=? 8)) eqn:B.
      * exfalso. apply N. exists v. split; [exact E | lia].
      * cbn [assert_ rbind length]. rewrite Nat.add_0_r. reflexivity.
    + reflexivity.
  - cbn [app chars map State.check_digits]. unfold py_int_or_0.
    rewrite py_int_char, E. cbn [rbind]. change State._N with 8.
    replace ((1 <=? v) && (v <=? 8)) with true by lia.
    cbn [assert_ rbind]. unfold chars in IH. rewrite IH. cbn [length].
    replace (S i + length pre + 1)%nat with (i + S (length pre) + 1)%nat by lia.
    reflexivity.
Qed.

(** X5. The constructor stops at the first character that is no row digit: a
    decimal digit out of range (0 or 9) fails the assertion, which names the
    1-based position; any other character makes [int] raise [ValueError]. *)
Theorem init_first_bad_character
    (pre post : pystr) (c : ascii) (w : world) :
  length (pre ++ c :: post) = 8%nat -> Forall is_row pre -> ~ is_row c ->
  State.__init__ (pre ++ c :: post) w
  = (Raise (match digit_value c with
            | Some _ => AssertionError (invalid_digit_value (length pre + 1))
            | None => ValueError
            end), w).
Proof.
  intros L F N. rewrite init_eq. unfold len. rewrite L.
  cbn [Z.of_nat Z.eqb Pos.of_succ_nat Pos.succ Pos.eqb].
  rewrite (check_digits_first_bad 0 pre post c F N). reflexivity.
Qed.

Lemma init_first_bad_character_witness :
  State.__init__ (str "415" ++ "x"%char :: str "2736")
    (mkWorld (fun _ => 0%N) 0 0)
  = (Raise ValueError, mkWorld (fun _ => 0%N) 0 0) /\
  State.__init__ (str "415" ++ "9"%char :: str "2736")
    (mkWorld (fun _ => 0%N) 0 0)
  = (Raise (AssertionError (invalid_digit_value 4)),
     mkWorld (fun _ => 0%N) 0 0).
Proof.
  split.
  - apply (init_first_bad_character (str "415") (str "2736") "x"%char).
    + reflexivity.
    + apply forallb_is_rowb. reflexivity.
    + intros R. apply is_rowb_spec in R. discriminate.
  - apply (init_first_bad_character (str "415") (str "2736") "9"%char).
    + reflexivity.
    + apply forallb_is_rowb. reflexivity.
    + intros R. apply is_rowb_spec in R. discriminate.
Defined.

(** ** More on mating and generation *)

(** [mate] without mutation, in full. *)
Lemma mate_crossover (a b : State) (w : world) :
  invariant a -> invariant b ->
  let c := Z.to_nat (Z.of_N (entropy w (cursor w)) mod 8) in
  State.mate a b (Finite 0) w
  = (Ok (mkState (next_id w) (firstn c (_digits a) ++ skipn c (_digits b))),
     mkWorld (entropy w) (1 + cursor w) (N.succ (next_id w))).
Proof.
  intros Va Vb c. rewrite mate_eq.
  change (float_le (Finite 0) (Finite 0) && float_lt (Finite 0) (Finite 1))
    with true.
  change (float_lt (Finite 0) (Finite 0)) with false. cbv zeta iota.
  assert (C : 0 <= Z.of_N (entropy w (cursor w)) mod 8 < 8)
    by (apply Z.mod_pos_bound; lia).
  assert (La : len (_digits a) = 8) by (destruct Va as [L _]; unfold len; lia).
  assert (Lb : len (_digits b) = 8) by (destruct Vb as [L _]; unfold len; lia).
  rewrite slice_prefix, slice_suffix by lia.
  unfold bind, ret. rewrite init_valid_advance; [reflexivity|].
  apply crossover_valid; [exact Va | exact Vb | lia].
Qed.

Lemma seq_getitem_in_range {A} (s : list A) (i : Z) :
  0 <= i < len s ->
  seq_getitem s i = match nth_error s (Z.to_nat i) with
                    | Some c => Ok c
                    | None => Raise IndexError
                    end.
Proof.
  intros H. unfold seq_getitem.
  replace (i <? 0) with false by lia.
  replace ((i <? 0) || (len s <=? i)) with false by lia. reflexivity.
Qed.

(** X6. The crossover point is at most 7, so without mutation the last column of
    the child is always the one of [other]: the child is never a copy of
    [self] unless the two parents agree there. *)
Theorem mate_last_column_from_other (a b : State) (w : world) :
  invariant a -> invariant b ->
  exists child w',
    State.mate a b (Finite 0) w = (Ok child, w') /\
    State.__getitem__ child (KInt 7) = State.__getitem__ b (KInt 7) /\
    State.__getitem__ child (KInt (-1)) = State.__getitem__ b (KInt (-1)).
Proof.
  intros Va Vb. rewrite (mate_crossover a b w Va Vb). cbv zeta.
  set (c := Z.to_nat (Z.of_N (entropy w (cursor w)) mod 8)).
  assert (C : (c < 8)%nat).
  { unfold c. pose proof (Z.mod_pos_bound (Z.of_N (entropy w (cursor w))) 8).
    lia. }
  eexists _, _. split; [reflexivity|].
  destruct Va as [La _]. destruct Vb as [Lb _].
  assert (N : nth_error (firstn c (_digits a) ++ skipn c (_digits b)) 7
              = nth_error (_digits b) 7).
  { rewrite nth_error_app2 by (rewrite length_firstn; lia).
    rewrite length_firstn, nth_error_skipn. f_equal. lia. }
  assert (L : len (firstn c (_digits a) ++ skipn c (_digits b)) = 8).
  { unfold len. rewrite length_app, length_firstn, length_skipn. lia. }
  assert (L' : len (_digits b) = 8) by (unfold len; lia).
  assert (E : State.__getitem__
                (mkState (next_id w)
                   (firstn c (_digits a) ++ skipn c (_digits b))) (KInt 7)
              = State.__getitem__ b (KInt 7)).
  { cbn [State.__getitem__ _digits]. unfold str_getitem.
    rewrite !seq_getitem_in_range by lia.
    change (Z.to_nat 7) with 7%nat. rewrite N. reflexivity. }
  split; [exact E|].
  cbn [State.__getitem__ _digits] in *. unfold str_getitem in *.
  rewrite (seq_getitem_negative (_digits b)) by lia.
  rewrite (seq_getitem_negative (firstn c (_digits a) ++ skipn c (_digits b)))
    by lia.
  rewrite L, L'. exact E.
Qed.

Lemma mate_last_column_from_other_witness :
  exists child w',
    State.mate (mkState 0 (str "12345678")) (mkState 1 (str "41582736"))
      (Finite 0) (mkWorld (fun _ => 7%N) 0 2) = (Ok child, w') /\
    State.__getitem__ child (KInt 7)
    = State.__getitem__ (mkState 1 (str "41582736")) (KInt 7) /\
    State.__getitem__ child (KInt (-1))
    = State.__getitem__ (mkState 1 (str "41582736")) (KInt (-1)).
Proof.
  apply (mate_last_column_from_other (mkState 0 (str "12345678"))
           (mkState 1 (str "41582736")));
    apply valid_digitsb_spec; reflexivity.
Defined.

(** X7. The child of [mate] is a new object: it is equal (by identity) to
    neither parent, whatever its digits, and it takes exactly one
    identity. *)
Theorem mate_child_is_new (a b : State) (p : pyfloat) (w : world) :
  invariant a -> invariant b -> in_unit_interval p ->
  (obj_id a < next_id w)%N -> (obj_id b < next_id w)%N ->
  exists child w',
    State.mate a b p w = (Ok child, w') /\
    State_eqb child a = false /\ State_eqb child b = false /\
    next_id w' = N.succ (obj_id child).
Proof.
  intros Va Vb P Ia Ib.
  destruct (mate_valid a b p w Va Vb P) as (d & n & -> & V).
  eexists _, _. split; [reflexivity|]. unfold State_eqb. cbn [obj_id next_id].
  split; [apply N.eqb_neq; lia|]. split; [apply N.eqb_neq; lia | reflexivity].
Qed.

Lemma mate_child_is_new_witness :
  exists child w',
    State.mate (mkState 0 (str "41582736")) (mkState 1 (str "41582736"))
      MUTATION_PROBABILITY world0 = (Ok child, w') /\
    State_eqb child (mkState 0 (str "41582736")) = false /\
    State_eqb child (mkState 1 (str "41582736")) = false /\
    next_id w' = N.succ (obj_id child).
Proof.
  apply (mate_child_is_new (mkState 0 (str "41582736"))
           (mkState 1 (str "41582736")) MUTATION_PROBABILITY world0).
  - apply valid_digitsb_spec. reflexivity.
  - apply valid_digitsb_spec. reflexivity.
  - exact MUTATION_PROBABILITY_ok.
  - reflexivity.
  - reflexivity.
Defined.

(** X9. The class attributes after a run of [generator]: a run that passes the
    assertion leaves [_possible_states] loaded and the iterator [_state_gen]
    drained, also when [random.sample] then fails; a run that fails the
    assertion leaves the class as it was; the loaded tuple is never loaded
    again. *)
Theorem generator_loads_once (cls : State_class) (num_states : Z) :
  class_ok cls ->
  class_ok (fst (State.generator cls num_states)) /\
  (0 < num_states ->
   fst (State.generator cls num_states) = State.load State.class0 /\
   _state_gen (fst (State.generator cls num_states)) = [] /\
   _possible_states (fst (State.generator cls num_states))
   = Some (_state_gen State.class0)) /\
  (num_states <= 0 -> fst (State.generator cls num_states) = cls).
Proof.
  intros C. unfold State.generator.
  destruct (Z.ltb_spec 0 num_states) as [H|H]; cbn [negb fst].
  - assert (E : State.load cls = State.load State.class0).
    { destruct C as [-> | ->]; reflexivity. }
    rewrite E. split; [right; reflexivity|]. split; [|lia].
    intros _. repeat split.
  - split; [exact C|]. split; [lia | reflexivity].
Qed.

Lemma generator_loads_once_witness :
  class_ok (fst (State.generator State.class0 K)) /\
  (0 < K ->
   fst (State.generator State.class0 K) = State.load State.class0 /\
   _state_gen (fst (State.generator State.class0 K)) = [] /\
   _possible_states (fst (State.generator State.class0 K))
   = Some (_state_gen State.class0)) /\
  (K <= 0 -> fst (State.generator State.class0 K) = State.class0).
Proof.
  apply (generator_loads_once State.class0 K). left. reflexivity.
Defined.

(** ** The population through the search *)

Lemma fill_loop (population : list State) (h : dict) :
  Forall invariant population ->
  NoDup (map obj_id population) ->
  Forall (fun s => ~ In (obj_id s) (map obj_id population)) (dict_keys h) ->
  rfold fill population h
  = Ok (h ++ map (fun s => (s, score s)) population).
Proof.
  intros F. revert h. induction F as [|s l V _ IH]; intros h N D.
  - cbn. rewrite app_nil_r. reflexivity.
  - cbn [rfold map]. unfold fill at 1. rewrite (fitness_score s V).
    cbn [rbind]. inversion N as [|? ? Ns Nl]. subst.
    rewrite dict_set_fresh.
    + rewrite IH.
      * rewrite <- app_assoc. reflexivity.
      * exact Nl.
      * unfold dict_keys. rewrite map_app. apply Forall_app. split.
        -- apply Forall_forall. intros k Ik. rewrite Forall_forall in D.
           specialize (D k Ik). cbn [map] in D. intros I. apply D.
           right. exact I.
        -- repeat constructor. exact Ns.
    + apply Forall_forall. intros k Ik. rewrite Forall_forall in D.
      specialize (D k Ik). cbn [map] in D. intros E. apply D. left.
      symmetry. exact E.
Qed.

Lemma enter_spec (population : list State) :
  Forall invariant population -> NoDup (map obj_id population) ->
  enter population
  = Ok (mkVars (map (fun s => (s, score s)) population) true 0 0 None).
Proof.
  intros F N. unfold enter. rewrite (fill_loop population [] F N).
  - reflexivity.
  - constructor.
Qed.

Lemma cache_ok_scores (l : list State) :
  Forall invariant l -> cache_ok (map (fun s => (s, score s)) l).
Proof.
  intros F. unfold cache_ok. apply Forall_map. cbn [fst snd].
  apply Forall_forall. intros s I. apply fitness_score.
  rewrite Forall_forall in F. auto.
Qed.

(** X10. The mapping the loop starts from: for a population of valid, distinct
    objects every member is a key, in the order of the population, stored
    with its fitness; the loop is entered with [searching] set, no
    iteration counted and no golden child. *)
Theorem enter_caches_fitness (population : list State) :
  Forall invariant population -> NoDup (map obj_id population) ->
  exists v,
    enter population = Ok v /\
    dict_keys (hashmap v) = population /\
    cache_ok (hashmap v) /\
    (forall s, In s population -> dict_get (hashmap v) s = Some (score s)) /\
    searching v = true /\ iterations v = 0 /\ golden_child v = None.
Proof.
  intros F N. eexists. split; [apply enter_spec; assumption|].
  cbn [hashmap searching iterations golden_child].
  split.
  { unfold dict_keys. rewrite map_map. cbn [fst]. apply map_id. }
  split; [apply cache_ok_scores; exact F|].
  split; [|repeat split].
  clear F. induction population as [|x l IH]; intros s I; [destruct I|].
  cbn [map dict_get]. unfold State_eqb.
  inversion N as [|? ? Nx Nl]. subst.
  destruct (N.eqb_spec (obj_id x) (obj_id s)) as [E|E].
  - destruct I as [<-|I]; [reflexivity|].
    exfalso. apply Nx. rewrite E. apply in_map. exact I.
  - destruct I as [<-|I]; [congruence|]. apply IH; assumption.
Qed.

Lemma population0_valid : Forall invariant population0.
Proof.
  apply Forall_forall. intros s I. apply valid_digitsb_spec.
  revert s I. apply forallb_forall. vm_compute. reflexivity.
Qed.

Lemma population0_distinct : NoDup (map obj_id population0).
Proof.
  apply (nodupb_sound N.eqb); [apply N.eqb_refl|]. vm_compute. reflexivity.
Qed.

Lemma enter_caches_fitness_witness :
  exists v,
    enter population0 = Ok v /\
    dict_keys (hashmap v) = population0 /\
    cache_ok (hashmap v) /\
    (forall s, In s population0 -> dict_get (hashmap v) s = Some (score s)) /\
    searching v = true /\ iterations v = 0 /\ golden_child v = None.
Proof.
  apply (enter_caches_fitness population0).
  - exact population0_valid.
  - exact population0_distinct.
Defined.

Lemma generation_pop_ok (v : vars) (w : world) :
  pop_ok v w ->
  exists children n,
    generation v w
    = (Ok (mkVars (hashmap v ++ map (fun c => (c, score c)) children)
             (searching v && forallb (fun c => negb (solves c)) children)
             (iterations v + (K - 1)) (counter v + 1)
             (last_solution children (golden_child v))),
       mkWorld (entropy w) (n + cursor w) (next_id w + 999)%N) /\
    Forall invariant children /\
    pop_ok (mkVars (hashmap v ++ map (fun c => (c, score c)) children)
              (searching v && forallb (fun c => negb (solves c)) children)
              (iterations v + (K - 1)) (counter v + 1)
              (last_solution children (golden_child v)))
           (mkWorld (entropy w) (n + cursor w) (next_id w + 999)%N).
Proof.
  intros P. destruct (generation_spec v w P) as (children & n & E & L & Fc & Fi).
  destruct P as (Fv & Fid & Lk).
  exists children, n. split; [exact E|]. split; [exact Fc|].
  unfold pop_ok. cbn [hashmap next_id].
  assert (Ek : dict_keys (hashmap v ++ map (fun c => (c, score c)) children)
               = dict_keys (hashmap v) ++ children).
  { unfold dict_keys. rewrite map_app, map_map. cbn [fst]. rewrite map_id.
    reflexivity. }
  rewrite Ek. split; [|split].
  - apply Forall_app. split; assumption.
  - apply Forall_app. split.
    + apply Forall_forall. intros s I. rewrite Forall_forall in Fid.
      specialize (Fid s I). lia.
    + apply Forall_forall. intros s I. rewrite Forall_forall in Fi.
      specialize (Fi s I). lia.
  - unfold len in *. rewrite length_app. lia.
Qed.

(** X11. A generation changes and drops no entry of the mapping, and stores each
    child with its fitness: the cache stays right. *)
Theorem generation_keeps_cache (v : vars) (w : world) :
  pop_ok v w -> cache_ok (hashmap v) ->
  exists v' w' added,
    generation v w = (Ok v', w') /\
    hashmap v' = hashmap v ++ added /\
    cache_ok (hashmap v') /\
    counter v' = counter v + 1.
Proof.
  intros P C. destruct (generation_pop_ok v w P) as (children & n & E & Fc & _).
  eexists _, _, _. split; [exact E|]. cbn [hashmap counter].
  split; [reflexivity|]. split; [|reflexivity].
  apply Forall_app. split; [exact C | apply cache_ok_scores; exact Fc].
Qed.

Lemma generation_keeps_cache_witness :
  exists v' w' added,
    generation vars0 world0 = (Ok v', w') /\
    hashmap v' = hashmap vars0 ++ added /\
    cache_ok (hashmap v') /\
    counter v' = counter vars0 + 1.
Proof.
  apply (generation_keeps_cache vars0 world0).
  - apply pop_okb_spec. vm_compute. reflexivity.
  - assert (E : hashmap vars0 = map (fun s => (s, score s)) population0).
    { unfold vars0.
      rewrite (enter_spec _ population0_valid population0_distinct).
      reflexivity. }
    rewrite E. apply cache_ok_scores. exact population0_valid.
Defined.

(** ** Ranking *)

Section Ranking.

Context {A : Type}.
Variable key : A -> Z.

Lemma insert_desc_In (x y : A) (l : list A) :
  In y (insert_desc key x l) <-> y = x \/ In y l.
Proof.
  split; intros H.
  - apply (Permutation_in _ (insert_desc_perm key x l)) in H.
    destruct H as [<-|H]; auto.
  - apply (Permutation_in _ (Permutation_sym (insert_desc_perm key x l))).
    destruct H as [->|H]; [left | right]; auto.
Qed.

Lemma insert_desc_sorted (x : A) (l : list A) :
  StronglySorted (fun a b => key b <= key a) l ->
  StronglySorted (fun a b => key b <= key a) (insert_desc key x l).
Proof.
  induction 1 as [|y l S IH F].
  - repeat constructor.
  - cbn [insert_desc]. destruct (Z.ltb_spec (key x) (key y)) as [H|H].
    + constructor; [exact IH|].
      apply Forall_forall. intros z I. apply insert_desc_In in I.
      destruct I as [->|I]; [lia|]. rewrite Forall_forall in F. auto.
    + constructor; [constructor; assumption|].
      constructor; [exact H|].
      apply Forall_forall. intros z I. rewrite Forall_forall in F.
      specialize (F z I). lia.
Qed.

Lemma sort_desc_sorted (l : list A) :
  StronglySorted (fun a b => key b <= key a) (sort_desc key l).
Proof.
  induction l as [|x l IH]; [constructor|].
  cbn [sort_desc fold_right]. apply insert_desc_sorted. exact IH.
Qed.

(** Among the elements of one key the insertion keeps the order. *)
Lemma insert_desc_stable (f : Z) (x : A) (l : list A) :
  StronglySorted (fun a b => key b <= key a) l ->
  filter (fun e => key e =? f) (insert_desc key x l)
  = filter (fun e => key e =? f) (x :: l).
Proof.
  induction 1 as [|y l S IH F].
  - reflexivity.
  - cbn [insert_desc]. destruct (Z.ltb_spec (key x) (key y)) as [H|H];
      [|reflexivity].
    cbn [filter] in *. rewrite IH.
    destruct (Z.eqb_spec (key x) f) as [Ex|Ex];
      destruct (Z.eqb_spec (key y) f) as [Ey|Ey]; try reflexivity.
    lia.
Qed.

Lemma sort_desc_stable (f : Z) (l : list A) :
  filter (fun e => key e =? f) (sort_desc key l)
  = filter (fun e => key e =? f) l.
Proof.
  induction l as [|x l IH]; [reflexivity|].
  cbn [sort_desc fold_right].
  rewrite insert_desc_stable by apply sort_desc_sorted.
  cbn [filter]. fold (sort_desc key l). rewrite IH. reflexivity.
Qed.

Lemma sorted_split (k : nat) (l : list A) (x y : A) :
  StronglySorted (fun a b => key b <= key a) l ->
  In x (firstn k l) -> In y (skipn k l) -> key y <= key x.
Proof.
  intros S. revert k. induction S as [|z l S IH F]; intros k Ix Iy.
  - rewrite firstn_nil in Ix. destruct Ix.
  - destruct k as [|k]; [destruct Ix|].
    cbn [firstn skipn] in *. destruct Ix as [<-|Ix].
    + rewrite Forall_forall in F. apply F.
      rewrite <- (firstn_skipn k l). apply in_or_app. right. exact Iy.
    + apply (IH k); assumption.
Qed.

End Ranking.

(** X12. The ranking of a generation and its mating pool: the States are ranked
    by descending cached fitness, States of equal fitness in the order they
    entered the mapping; the pool is the first [K] of them, so no State left
    out has a higher fitness than a State of the pool. *)
Theorem mating_pool_is_top_K (d : dict) :
  let ranked := sort_desc snd d in
  sorted_by_value_desc d = dict_keys ranked /\
  Permutation ranked d /\
  StronglySorted (fun a b => snd b <= snd a) ranked /\
  (forall f, filter (fun e => snd e =? f) ranked
             = filter (fun e => snd e =? f) d) /\
  (K <= len d ->
   slice (sorted_by_value_desc d) None (Some K)
   = dict_keys (firstn (Z.to_nat K) ranked) /\
   forall x y, In x (firstn (Z.to_nat K) ranked) ->
               In y (skipn (Z.to_nat K) ranked) -> snd y <= snd x).
Proof.
  intros ranked. split; [reflexivity|].
  split; [apply sort_desc_perm|].
  split; [apply sort_desc_sorted|].
  split; [intros f; apply sort_desc_stable|].
  intros L. split.
  - rewrite slice_prefix.
    + unfold sorted_by_value_desc, dict_keys. fold ranked.
      apply firstn_map.
    + unfold len in *. unfold sorted_by_value_desc.
      rewrite length_map, (Permutation_length (sort_desc_perm snd d)).
      unfold K in *. lia.
  - intros x y. apply sorted_split. apply sort_desc_sorted.
Qed.

(** ** The end of the search *)

Lemma last_solution_cases (children : list State) (before : option State) :
  (forallb (fun c => negb (solves c)) children = true /\
   last_solution children before = before) \/
  (exists g, In g children /\ solves g = true /\
             last_solution children before = Some g).
Proof.
  unfold last_solution. revert before.
  induction children as [|c l IH]; intros before.
  - left. split; reflexivity.
  - cbn [forallb fold_left]. destruct (solves c) eqn:S; cbn [negb andb].
    + right. destruct (IH (Some c)) as [[_ E]|(g & I & G & E)].
      * exists c. split; [left; reflexivity|]. split; assumption.
      * exists g. split; [right; exact I|]. split; assumption.
    + destruct (IH before) as [[N E]|(g & I & G & E)].
      * left. split; assumption.
      * right. exists g. split; [right; exact I|]. split; assumption.
Qed.

(** The search from a population the loop can meet, for any number of
    generations: it does not raise, and when it ends the recorded State is a
    valid child that is a goal, and the matings of [k] full generations were
    counted. *)
Lemma search_spec (fuel : nat) (v : vars) (w : world) :
  pop_ok v w -> searching v = true ->
  (exists w', search fuel v w = (Ok None, w')) \/
  (exists v' w' g k,
     search fuel v w = (Ok (Some v'), w') /\
     searching v' = false /\
     golden_child v' = Some g /\ invariant g /\ solves g = true /\
     In g (dict_keys (hashmap v')) /\
     (1 <= k <= fuel)%nat /\
     iterations v' = iterations v + (K - 1) * Z.of_nat k /\
     counter v' = counter v + Z.of_nat k).
Proof.
  revert v w. induction fuel as [|fuel IH]; intros v w P Hs.
  - left. exists w. cbn [search]. rewrite Hs. reflexivity.
  - rewrite (search_step fuel v w Hs). unfold bind.
    destruct (generation_pop_ok v w P) as (children & n & -> & Fc & P1).
    match goal with |- context [search fuel ?v1 ?w1] =>
      set (v' := v1) in *; set (w' := w1) in * end.
    destruct (searching v') eqn:S1.
    + destruct (IH v' w' P1 S1) as [(w2 & ->)|(v2 & w2 & g & k & -> & R)].
      * left. eauto.
      * right. exists v2, w2, g, (S k).
        destruct R as (R1 & R2 & R3 & R4 & R5 & R6 & R7 & R8).
        split; [reflexivity|]. repeat (split; [assumption|]).
        unfold v' in R7, R8. cbn [iterations counter] in R7, R8.
        split; [lia|]. split; lia.
    + right. rewrite (search_done fuel v' w' S1).
      unfold v' in S1. cbn [searching] in S1. rewrite Hs in S1.
      cbn [andb] in S1.
      destruct (last_solution_cases children (golden_child v))
        as [[N _]|(g & I & G & E)]; [congruence|].
      exists v', w', g, 1%nat. split; [reflexivity|].
      unfold v'. cbn [searching golden_child hashmap iterations counter].
      rewrite Hs, S1. split; [reflexivity|]. split; [exact E|].
      split; [rewrite Forall_forall in Fc; auto|]. split; [exact G|].
      split.
      { unfold dict_keys. rewrite map_app, map_map. cbn [fst].
        rewrite map_id. apply in_or_app. right. exact I. }
      split; [lia|]. split; lia.
Qed.

(** X13. When the search loop ends, the golden child is a goal: a valid State
    that is a key of the mapping; the loop ran [k >= 1] generations in full
    and counted 999 iterations for each. With any number of generations
    allowed the loop does not raise. *)
Theorem search_ends_with_a_goal (fuel : nat) (v : vars) (w : world) :
  pop_ok v w -> searching v = true ->
  (exists r w', search fuel v w = (Ok r, w')) /\
  (forall v' w',
     search fuel v w = (Ok (Some v'), w') ->
     searching v' = false /\
     exists g k,
       golden_child v' = Some g /\
       goal g = Ok true /\ invariant g /\
       In g (dict_keys (hashmap v')) /\
       (1 <= k <= fuel)%nat /\
       iterations v' = iterations v + 999 * Z.of_nat k /\
       counter v' = counter v + Z.of_nat k).
Proof.
  intros P S.
  destruct (search_spec fuel v w P S)
    as [(w1 & E)|(v1 & w1 & g & k & E & R1 & R2 & R3 & R4 & R5 & R6 & R7 & R8)].
  - split; [eauto|]. intros v' w' H. congruence.
  - split; [eauto|]. intros v' w' H. rewrite E in H. injection H as <- <-.
    split; [exact R1|]. exists g, k. split; [exact R2|].
    split; [rewrite (goal_solves g R3), R4; reflexivity|].
    split; [exact R3|]. split; [exact R5|]. split; [exact R6|].
    split; [exact R7 | exact R8].
Qed.

Lemma search_ends_with_a_goal_witness :
  (exists r w', search 3 vars0 world0 = (Ok r, w')) /\
  (forall v' w',
     search 3 vars0 world0 = (Ok (Some v'), w') ->
     searching v' = false /\
     exists g k,
       golden_child v' = Some g /\
       goal g = Ok true /\ invariant g /\
       In g (dict_keys (hashmap v')) /\
       (1 <= k <= 3)%nat /\
       iterations v' = iterations vars0 + 999 * Z.of_nat k /\
       counter v' = counter vars0 + Z.of_nat k).
Proof.
  apply (search_ends_with_a_goal 3 vars0 world0).
  - apply pop_okb_spec. vm_compute. reflexivity.
  - vm_compute. reflexivity.
Defined.

(** The population the program starts from. *)
Lemma generator_population (w : world) :
  exists states,
    snd (State.generator State.class0 K) w
    = (Ok states,
       mkWorld (entropy w) (1000 + cursor w) (next_id w + 1000)%N) /\
    len states = K /\
    Forall invariant states /\
    NoDup (map obj_id states) /\
    Forall (fun s => (obj_id s < next_id w + 1000)%N) states.
Proof.
  rewrite (generator_eq State.class0 K w (or_introl eq_refl)).
  change (0 <? K) with true. cbv iota.
  destruct (sample_spec (product (chars State._VALID_DIGITS) 8) K w)
    as (picked & E & L & I & N).
  { rewrite possible_states_len. unfold K. lia. }
  assert (V : Forall (fun t => valid_digits (join t)) picked).
  { apply Forall_forall. intros t It. apply join_valid. apply I. exact It. }
  destruct (yield_states picked (advance (Z.to_nat K) w) V)
    as (states & Y & D & Ids).
  assert (Lp : length picked = 1000%nat) by (unfold len, K in L; lia).
  exists states. unfold bind. rewrite E, Y.
  cbn [advance entropy cursor next_id] in *. rewrite Lp in *.
  split; [reflexivity|]. split; [|split; [|split]].
  - unfold len in *. rewrite <- (length_map _digits), D, length_map. exact L.
  - apply Forall_forall. intros s Is. unfold invariant.
    assert (J : In (_digits s) (map join picked)).
    { rewrite <- D. apply in_map. exact Is. }
    apply in_map_iff in J. destruct J as (t & <- & It).
    rewrite Forall_forall in V. auto.
  - rewrite Ids. apply NoDup_map_NoDup_ForallPairs; [|apply seq_NoDup].
    intros a b _ _ H. lia.
  - apply Forall_forall. intros s Is.
    assert (J : In (obj_id s) (map obj_id states)) by (apply in_map; exact Is).
    rewrite Ids in J. apply in_map_iff in J. destruct J as (k & <- & Ik).
    apply in_seq in Ik. lia.
Qed.

(** The program up to the loop: the loop is entered with a population it
    can work on. *)
Lemma main_eq (fuel : nat) (w : world) :
  exists v w1,
    pop_ok v w1 /\ searching v = true /\ iterations v = 0 /\
    main fuel w
    = (r <- search fuel v ;;
       match r with
       | Some v' =>
           match golden_child v' with
           | Some g => ret (Some (g, iterations v'))
           | None => ret None
           end
       | None => ret None
       end) w1.
Proof.
  destruct (generator_population w) as (states & G & L & F & N & Ids).
  exists (mkVars (map (fun s => (s, score s)) states) true 0 0 None).
  exists (mkWorld (entropy w) (1000 + cursor w) (next_id w + 1000)%N).
  split.
  { unfold pop_ok. cbn [hashmap next_id].
    assert (E : dict_keys (map (fun s => (s, score s)) states) = states).
    { unfold dict_keys. rewrite map_map. cbn [fst]. apply map_id. }
    rewrite E. split; [exact F|]. split; [exact Ids|].
    unfold len in *. rewrite length_map. lia. }
  split; [reflexivity|]. split; [reflexivity|].
  unfold main. unfold bind at 1. rewrite G.
  unfold bind at 1, lift. rewrite (enter_spec states F N). reflexivity.
Qed.

Lemma main_spec (fuel : nat) (w : world) :
  (exists w', main fuel w = (Ok None, w')) \/
  (exists g k w',
     main fuel w = (Ok (Some (g, 999 * Z.of_nat k)), w') /\
     invariant g /\ solves g = true /\ (1 <= k <= fuel)%nat).
Proof.
  destruct (main_eq fuel w) as (v & w1 & P & S & I & ->).
  destruct (search_spec fuel v w1 P S)
    as [(w2 & E)|(v2 & w2 & g & k & E & R1 & R2 & R3 & R4 & R5 & R6 & R7 & R8)].
  - left. exists w2. unfold bind. rewrite E. reflexivity.
  - right. exists g, k, w2. unfold bind. rewrite E. cbv beta iota.
    rewrite R2, R7, I. unfold ret.
    split; [|auto].
    replace (0 + (K - 1) * Z.of_nat k) with (999 * Z.of_nat k)
      by (unfold K; lia).
    reflexivity.
Qed.

(** X14. The program as a whole: it does not raise, and what it prints when the
    search ends is a State that satisfies the goal test together with a
    count of iterations that is 999 times the number of generations run. *)
Theorem main_prints_a_solution (fuel : nat) (w : world) :
  (exists r w', main fuel w = (Ok r, w')) /\
  (forall g n w',
     main fuel w = (Ok (Some (g, n)), w') ->
     goal g = Ok true /\ invariant g /\
     exists k, (1 <= k <= fuel)%nat /\ n = 999 * Z.of_nat k).
Proof.
  destruct (main_spec fuel w) as [(w1 & E)|(g & k & w1 & E & V & G & B)];
    rewrite E; clear E.
  - split; [eexists _, _; reflexivity|]. intros g n w' H. discriminate.
  - split; [eexists _, _; reflexivity|].
    intros g' n w' H. injection H as <- <- <-.
    split; [rewrite (goal_solves g V), G; reflexivity|].
    split; [exact V|]. exists k. split; [exact B | reflexivity].
Qed.

(** ** Keys that are strings *)

Lemma startswith_spec (s p : pystr) :
  startswith s p = true <-> exists post, s = p ++ post.
Proof.
  revert s. induction p as [|x p IH]; intros s.
  - split; [intros _; exists s; reflexivity
           | intros _; destruct s; reflexivity].
  - destruct s as [|y s]; cbn [startswith].
    + split; [discriminate | intros (post & E); discriminate].
    + unfold ascii_eqb. rewrite andb_true_iff, Ascii.eqb_eq, IH. split.
      * intros (-> & post & ->). exists post. reflexivity.
      * intros (post & E). injection E as -> ->. split; [reflexivity|].
        exists post. reflexivity.
Qed.

(** [find] gives a position where the substring occurs (the start of the
    string for the empty substring), and nothing when it occurs nowhere. *)
Lemma str_find_spec (s sub : pystr) (off : nat) :
  match str_find s sub off with
  | Some i => exists pre post,
                s = pre ++ sub ++ post /\ i = (off + length pre)%nat /\
                (sub = [] -> pre = [])
  | None => forall pre post, s <> pre ++ sub ++ post
  end.
Proof.
  revert off. induction s as [|c s IH]; intros off.
  - cbn [str_find]. destruct (startswith [] sub) eqn:B.
    + apply startswith_spec in B. destruct B as (post & E).
      exists [], post. split; [exact E|]. split; [cbn; lia | reflexivity].
    + intros pre post E. destruct pre as [|x pre]; [|discriminate].
      cbn [app] in E.
      assert (T : startswith [] sub = true).
      { apply startswith_spec. exists post. exact E. }
      congruence.
  - cbn [str_find]. destruct (startswith (c :: s) sub) eqn:B.
    + apply startswith_spec in B. destruct B as (post & E).
      exists [], post. split; [exact E|]. split; [cbn; lia | reflexivity].
    + specialize (IH (S off)). destruct (str_find s sub (S off)) as [i|].
      * destruct IH as (pre & post & -> & -> & _).
        exists (c :: pre), post. split; [reflexivity|]. split; [cbn; lia|].
        intros ->. cbn in B. discriminate.
      * intros pre post E. destruct pre as [|x pre].
        -- cbn [app] in E.
           assert (T : startswith (c :: s) sub = true).
           { apply startswith_spec. exists post. exact E. }
           congruence.
        -- injection E as -> E. exact (IH pre post E).
Qed.

(** X2. The keys of type [str] that [__getitem__] accepts are exactly the
    substrings of 'abcdefgh' (the eight letters, the runs of consecutive
    letters and the empty string): any other string fails the assertion,
    and an accepted one is answered, on a valid State, with the digit at the
    position where [index] finds the substring. *)
Theorem getitem_accepts_exactly_substrings (s : State) (k : pystr) :
  invariant s ->
  ((exists pre post, State._FILES = pre ++ k ++ post) ->
   exists i c, str_index State._FILES k = Ok i /\ 0 <= i < 8 /\
               State.__getitem__ s (KStr k) = Ok [c] /\
               State.__getitem__ s (KInt i) = Ok [c]) /\
  ((forall pre post, State._FILES <> pre ++ k ++ post) ->
   State.__getitem__ s (KStr k) = Raise (AssertionError invalid_file)).
Proof.
  intros V. cbn [State.__getitem__]. unfold str_contains, str_index.
  pose proof (str_find_spec State._FILES k 0) as F.
  destruct (str_find State._FILES k 0) as [i|]; split.
  - intros _. destruct F as (pre & post & E & -> & Z).
    cbn [assert_ rbind Nat.add].
    assert (L : (length pre < 8)%nat).
    { destruct k as [|x k].
      - rewrite (Z eq_refl). cbn. lia.
      - apply (f_equal (@length ascii)) in E. rewrite !length_app in E.
        change (length State._FILES) with 8%nat in E. cbn [length] in E. lia. }
    exists (Z.of_nat (length pre)).
    destruct (seq_getitem_nth (_digits s) (Z.of_nat (length pre)))
      as (c & N & G).
    { destruct V as [Ls _]. unfold len. lia. }
    exists c. unfold str_getitem. rewrite G.
    split; [reflexivity|]. split; [lia|]. split; reflexivity.
  - intros H. destruct F as (pre & post & E & _). exfalso. exact (H pre post E).
  - intros (pre & post & E). exfalso. exact (F pre post E).
  - intros _. reflexivity.
Qed.

Lemma getitem_accepts_exactly_substrings_witness :
  ((exists pre post, State._FILES = pre ++ str "cde" ++ post) ->
   exists i c, str_index State._FILES (str "cde") = Ok i /\ 0 <= i < 8 /\
               State.__getitem__ (mkState 0 (str "41582736")) (KStr (str "cde"))
               = Ok [c] /\
               State.__getitem__ (mkState 0 (str "41582736")) (KInt i)
               = Ok [c]) /\
  ((forall pre post, State._FILES <> pre ++ str "cde" ++ post) ->
   State.__getitem__ (mkState 0 (str "41582736")) (KStr (str "cde"))
   = Raise (AssertionError invalid_file)).
Proof.
  apply (getitem_accepts_exactly_substrings (mkState 0 (str "41582736"))
           (str "cde")).
  apply valid_digitsb_spec. reflexivity.
Defined.

(** ** Solutions and symmetries *)















(** ** The printed board *)










(** ** What mutation can reach *)

Lemma choice_hits (c : ascii) :
  is_row c ->
  seq_getitem (chars State._VALID_DIGITS)
    (Z.of_N (N.of_nat (nat_of_ascii c - 49)) mod len (chars State._VALID_DIGITS))
  = Ok [c].
Proof.
  intros (v & E & B). unfold digit_value in E.
  destruct ((48 <=? Z.of_nat (nat_of_ascii c))
            && (Z.of_nat (nat_of_ascii c) <=? 57)); [|discriminate].
  injection E as E.
  assert (C : (nat_of_ascii c = 49 \/ nat_of_ascii c = 50
               \/ nat_of_ascii c = 51 \/ nat_of_ascii c = 52
               \/ nat_of_ascii c = 53 \/ nat_of_ascii c = 54
               \/ nat_of_ascii c = 55 \/ nat_of_ascii c = 56)%nat) by lia.
  rewrite <- (ascii_nat_embedding c).
  destruct C as [C|[C|[C|[C|[C|[C|[C|C]]]]]]]; rewrite C; reflexivity.
Qed.

Lemma float_lt_zero_word (p : pyfloat) (r : Z) :
  float_lt (Finite 0) p = true -> r mod 2 ^ 53 = 0 ->
  float_lt (Finite (Qmake (r mod 2 ^ 53) (2 ^ 53))) p = true.
Proof.
  intros P ->. destruct p as [q| | |]; try exact P.
  cbn [float_lt] in *. apply negb_true_iff in P. apply negb_true_iff.
  destruct (Qle_bool q (0 # 2 ^ 53)) eqn:B; [|reflexivity].
  rewrite <- P. symmetry. apply Qle_bool_iff. apply Qle_bool_iff in B.
  unfold Qle in *. cbn in *. lia.
Qed.

(** One round of the mutation loop under words that force the digit [c]. *)
Lemma mutate_at_forced (p : pyfloat) (l : list pystr) (i : Z) (w : world)
    (c : ascii) :
  float_lt (Finite 0) p = true ->
  entropy w (cursor w) = 0%N ->
  entropy w (S (cursor w)) = N.of_nat (nat_of_ascii c - 49) ->
  is_row c ->
  State.mutate_at p l i w = (Ok (list_set l (Z.to_nat i) [c]), advance 2 w).
Proof.
  intros P E0 E1 R.
  unfold State.mutate_at, bind at 1, random, bind at 1, next_word, ret.
  cbn [fst snd entropy cursor]. rewrite E0.
  rewrite (float_lt_zero_word p (Z.of_N 0) P eq_refl).
  assert (C : choice (chars State._VALID_DIGITS)
                (mkWorld (entropy w) (S (cursor w)) (next_id w))
              = (Ok [c], advance 2 w)).
  { assert (E : choice (chars State._VALID_DIGITS)
                  (mkWorld (entropy w) (S (cursor w)) (next_id w))
                = (seq_getitem (chars State._VALID_DIGITS)
                     (Z.of_N (entropy w (S (cursor w)))
                      mod len (chars State._VALID_DIGITS)),
                   advance 2 w)) by reflexivity.
    rewrite E, E1, (choice_hits c R). reflexivity. }
  unfold bind. rewrite C. reflexivity.
Qed.

Ltac force c :=
  match goal with
  | Hp : float_lt (Finite 0) ?p = true
    |- context [State.mutate_at ?p ?l ?i ?w] =>
      rewrite (mutate_at_forced p l i w c Hp eq_refl eq_refl
                 ltac:(assumption))
  end.

(** X8. With a positive mutation probability every valid State can be the
    child of every pair of valid parents: there is a run of the random
    generator under which [mate] returns a State with the digits
    [target]. *)
Theorem mate_can_reach_every_state
    (a b : State) (p : pyfloat) (target : pystr) (id : N) :
  invariant a -> invariant b -> in_unit_interval p ->
  float_lt (Finite 0) p = true -> valid_digits target ->
  exists w',
    State.mate a b p (mkWorld (forcing target) 0 id)
    = (Ok (mkState id target), w').
Proof.
  intros Va Vb P Hp [Lt Ft]. rewrite mate_eq.
  apply unit_interval_spec in P. rewrite P, Hp. cbv zeta.
  cbn [entropy cursor forcing]. change (Z.of_N 0 mod 8) with 0.
  assert (Lb : len (_digits b) = 8) by (destruct Vb; unfold len; lia).
  assert (La : len (_digits a) = 8) by (destruct Va; unfold len; lia).
  rewrite slice_prefix, slice_suffix by lia. cbn [Z.to_nat firstn skipn app].
  destruct Vb as [Lb' _].
  destruct (_digits b) as [|b0 [|b1 [|b2 [|b3 [|b4 [|b5 [|b6 [|b7 [|]]]]]]]]];
    try discriminate.
  destruct target as [|t0 [|t1 [|t2 [|t3 [|t4 [|t5 [|t6 [|t7 [|]]]]]]]]];
    try discriminate.
  repeat match goal with
         | H : Forall _ (_ :: _) |- _ => inversion H; subst; clear H
         end.
  unfold bind at 1. unfold bind at 1.
  change (range 0 (len (chars [b0; b1; b2; b3; b4; b5; b6; b7])))
    with [0; 1; 2; 3; 4; 5; 6; 7].
  cbn [foldM]. unfold bind.
  force t0.
  force t1.
  force t2.
  force t3.
  force t4.
  force t5.
  force t6.
  force t7.
  unfold ret.
  change (join _) with [t0; t1; t2; t3; t4; t5; t6; t7].
  rewrite init_valid.
  - eexists. reflexivity.
  - split; [reflexivity|]. repeat constructor; assumption.
Qed.

Lemma mate_can_reach_every_state_witness :
  exists w',
    State.mate (mkState 0 (str "11111111")) (mkState 1 (str "22222222"))
      MUTATION_PROBABILITY (mkWorld (forcing (str "41582736")) 0 2)
    = (Ok (mkState 2 (str "41582736")), w').
Proof.
  apply (mate_can_reach_every_state (mkState 0 (str "11111111"))
           (mkState 1 (str "22222222")) MUTATION_PROBABILITY
           (str "41582736") 2).
  - apply valid_digitsb_spec. reflexivity.
  - apply valid_digitsb_spec. reflexivity.
  - exact MUTATION_PROBABILITY_ok.
  - reflexivity.
  - apply valid_digitsb_spec. reflexivity.
Defined.
